(** * SmartRetire: the projection engine of [src/utils/calculations.ts]

    A shallow embedding of the financial engine (portfolio aggregation,
    amortisation, yearly projection, Monte Carlo bookkeeping, stress
    tests, gap analysis) together with the properties stated about it.

    Conventions of the embedding.
    - A JavaScript [number] that counts years (ages, durations, loop
      counters, calendar years, remaining mortgage years) is a [Z].
    - Every other [number] (money, rates, percentages, weights) is an
      exact rational [Q]: arithmetic is the ideal arithmetic that the
      IEEE doubles of the program approximate, and there is no NaN or
      infinity.  The operators [+ - * /] of the program are the exact
      operations followed by [Qred], which writes the result in lowest
      terms and leaves its value alone, so that the definitions can be
      run.  A division by zero gives 0 where the program gets NaN or an
      infinity; no statement below divides by zero.  A double can fall on
      the other side of a rounding tie than the exact value does (a share
      of 28.75 percent computed as 28.749999999999996 is written 28.7), and
      a debt paid off exactly can leave a residue of some 1e-9 in doubles:
      where the program rounds a computed value, the statements below
      bound the result or speak of the rounded field, and do not fix
      which neighbour is taken.  The inputs of the counterexamples are
      small dyadic rationals on which double arithmetic is exact as well.
    - [Asset] objects are mutable and shared by reference: they live in
      a store ([gmap ref Asset]) and arrays of assets are lists of
      references.  A function that writes to an asset takes the store and
      returns the new one.
    - [new Date().getFullYear()] is the argument [currentYear]; the
      normal deviates of [randn_bm] are an oracle [randn]. *)

From Stdlib Require Import ZArith QArith Qround Qabs Qpower Lqa Lia String Sorted.
From stdpp Require Import base option list gmap.

Local Open Scope Z_scope.
Local Open Scope Q_scope.

(** ** JavaScript number primitives *)

(** Terms of type [Q] are read with the operators of the program; until
    these are declared below, [+ - * /] are the exact operations. *)
Declare Scope js_scope.
Delimit Scope js_scope with js.
Bind Scope js_scope with Q.

Module Js.

(** The arithmetic operators. *)
Definition add (x y : Q) : Q := Qred (x + y).
Definition sub (x y : Q) : Q := Qred (x - y).
Definition mul (x y : Q) : Q := Qred (x * y).
Definition div (x y : Q) : Q := Qred (x / y).

(** [x < y] on numbers. *)
Definition ltb (x y : Q) : bool := negb (Qle_bool y x).

(** [x || d] on numbers: the left operand unless it is falsy (zero). *)
Definition or_else (x d : Q) : Q := if Qeq_bool x 0 then d else x.

(** [x || d] on year counts, where the left operand may be absent. *)
Definition or_elseZ (x : option Z) (d : Z) : Z :=
  match x with
  | Some v => if Z.eqb v 0%Z then d else v
  | None => d
  end.

(** [Math.round]: nearest integer, ties towards +infinity. *)
Definition Math_round (x : Q) : Q := inject_Z (Qfloor (x + (1 # 2))).

(** [Math.floor], as an integer. *)
Definition Math_floor (x : Q) : Z := Qfloor x.

(** [Math.pow] at a whole exponent. *)
Definition Math_pow (b : Q) (n : Z) : Q := Qred (Qpower b n).

(** [parseFloat(x.toFixed(1))]: [toFixed] rounds the magnitude to the
    nearest tenth, ties upwards, and keeps the sign; from 1e21 on it
    prints the number unrounded, so parsing gives [x] back. *)
Definition toFixed1 (x : Q) : Q :=
  if Qle_bool (inject_Z (10 ^ 21)) (Qabs x) then x
  else
    let n := Qfloor (Qabs x * 10 + (1 # 2)) in
    if ltb x 0 then Qred (- (inject_Z n / 10)) else Qred (inject_Z n / 10).

End Js.

Infix "+" := Js.add : js_scope.
Infix "-" := Js.sub : js_scope.
Infix "*" := Js.mul : js_scope.
Infix "/" := Js.div : js_scope.
Local Open Scope js_scope.

(** ** Data model ([src/types.ts]) *)

Inductive AssetType := Stock | Bond | Cash | Crypto | RealEstate | Commodity.
Inductive Region := US | Global | Asia | Europe | Emerging.
Inductive Currency := HKD | USD | CNY | JPY | GBP | EUR.

Record Asset := mkAsset {
  id : string;
  name : string;
  symbol : option string;
  type : AssetType;
  region : Region;
  currency : Currency;
  allocation : Q;
  quantity : Q;
  expectedReturn : Q;
  dividendYield : Q;
  volatility : Q;
  currentPrice : Q;
  weeklyChange : Q
}.

(** [asset.allocation = v] *)
Definition set_allocation (a : Asset) (v : Q) : Asset :=
  {| id := id a; name := name a; symbol := symbol a; type := type a;
     region := region a; currency := currency a; allocation := v;
     quantity := quantity a; expectedReturn := expectedReturn a;
     dividendYield := dividendYield a; volatility := volatility a;
     currentPrice := currentPrice a; weeklyChange := weeklyChange a |}.

(** References to asset objects, and the store they live in. *)
Abbreviation ref := nat (only parsing).
Abbreviation store := (gmap nat Asset) (only parsing).

Record MortgageParams := mkMortgage {
  hasMortgage : bool;
  remainingPrincipal : Q;
  annualRate : Q;
  remainingYears : Z;
  monthlyPayment : Q;
  reinvestAfterPayoff : bool
}.

Record CalculationParams := mkParams {
  currentAge : Z;
  retirementAge : Z;
  monthlyIncome : Q;
  targetMonthlyIncome : Q;
  targetAnnualYield : Q;
  initialPrincipal : Q;
  monthlyContribution : Q;
  annualExtraContribution : Q;
  inflationRate : Q;
  mortgage : MortgageParams;
  useManualReturn : bool;
  manualReturnRate : Q;
  manualDividendYield : Q;
  assets : list ref;
  simulatedAssets : list ref;
  lastPortfolioUpdate : option Z
}.

Record YearlyResult := mkYearly {
  age : Z;
  year : Z;
  totalPrincipal : Q;
  totalAppreciation : Q;
  totalDividends : Q;
  totalBalance : Q;
  totalLiabilities : Q;
  netWorth : Q;
  yearlyPassiveIncome : Q;
  totalPrincipalReal : Q;
  totalAppreciationReal : Q;
  totalDividendsReal : Q;
  totalBalanceReal : Q;
  totalLiabilitiesReal : Q;
  netWorthReal : Q;
  yearlyPassiveIncomeReal : Q
}.

Record PortfolioStats := mkStats {
  weightedReturn : Q;
  weightedYield : Q;
  weightedVolatility : Q;
  totalValue : Q
}.

Inductive SimulationEventType :=
| CONTRIBUTION_STOP
| ONE_TIME_EXPENSE
| RECURRING_EXPENSE
| MARKET_CRASH
| RETURN_REDUCTION
| RETIREMENT_EARLY.

Definition event_type_eqb (a b : SimulationEventType) : bool :=
  match a, b with
  | CONTRIBUTION_STOP, CONTRIBUTION_STOP
  | ONE_TIME_EXPENSE, ONE_TIME_EXPENSE
  | RECURRING_EXPENSE, RECURRING_EXPENSE
  | MARKET_CRASH, MARKET_CRASH
  | RETURN_REDUCTION, RETURN_REDUCTION
  | RETIREMENT_EARLY, RETIREMENT_EARLY => true
  | _, _ => false
  end.

Record LifecycleEvent := mkEvent {
  startAge : Z;
  duration : option Z;
  etype : SimulationEventType;
  value : Q;
  ename : option string
}.

Record StressTestScenario := mkScenario {
  sid : string;
  title : string;
  description : string;
  events : list LifecycleEvent;
  customRetirementAge : option Z;
  customLifeExpectancy : option Z
}.

Inductive Status := SAFE | WARNING | DANGER.

Record StressTestResult := mkOutcome {
  scenario : StressTestScenario;
  finalBalance : Q;
  baselineBalance : Q;
  difference : Q;
  isBankrupt : bool;
  bankruptAge : option Z;
  status : Status
}.

Record GapAnalysisResult := mkGap {
  shortfall : Q;
  suggestedConservativeAmount : Q;
  conservativeYield : Q
}.

(** A percentile read from an empty slot is [Math.round(undefined)],
    which is NaN: [None]. *)
Record SimulationResult := mkSim {
  sim_year : Z;
  sim_age : Z;
  p10 : option Q;
  p50 : option Q;
  p90 : option Q
}.

(** ** Currency conversion and amortisation *)

Definition EXCHANGE_RATES (c : Currency) : Q :=
  match c with
  | HKD => 1
  | USD => 780 # 100
  | CNY => 108 # 100
  | JPY => 52 # 1000
  | GBP => 985 # 100
  | EUR => 845 # 100
  end.

Definition convertToHKD (amount : Q) (c : Currency) : Q :=
  let rate := Js.or_else (EXCHANGE_RATES c) 1 in
  amount * rate.

Definition calculatePMT (rate : Q) (nper : Z) (pv : Q) : Q :=
  if Qeq_bool rate 0 then pv / inject_Z nper
  else
    let monthlyRate := rate / 100 / 12 in
    (pv * monthlyRate) / (1 - Js.Math_pow (1 + monthlyRate) (- nper)%Z).

(** ** Portfolio aggregator *)

(** [convertToHKD(asset.currentPrice * (asset.quantity || 0),
    asset.currency || 'HKD')]; a [Currency] is never falsy. *)
Definition hkdValueOf (a : Asset) : Q :=
  let localValue := currentPrice a * Js.or_else (quantity a) 0 in
  convertToHKD localValue (currency a).

(** First pass. *)
Definition firstPass (h : store) (acc : Q) (l : ref) : Q :=
  match h !! l with
  | Some a => acc + hkdValueOf a
  | None => acc
  end.

Definition sumValueHKD (h : store) (refs : list ref) : Q :=
  foldl (firstPass h) 0%Q refs.

Record Weighted := mkWeighted {
  acc_return : Q;
  acc_yield : Q;
  acc_volatility : Q;
  acc_store : gmap nat Asset
}.

(** Body of the second [forEach]: reads the asset, accumulates, and
    writes its allocation back.  [weight * 100] is the exact share; the
    program hands [toFixed] the double of it, which at a tie can lie on
    the other side (see the conventions). *)
Definition secondPass (totalValueHKD : Q) (st : Weighted) (l : ref) : Weighted :=
  match acc_store st !! l with
  | Some a =>
      let weight := hkdValueOf a / totalValueHKD in
      {| acc_return := acc_return st + expectedReturn a * weight;
         acc_yield := acc_yield st + dividendYield a * weight;
         acc_volatility := acc_volatility st + volatility a * weight;
         acc_store :=
           <[ l := set_allocation a (Js.toFixed1 (weight * 100)) ]> (acc_store st) |}
  | None => st
  end.

Definition calculatePortfolioStats (h : store) (refs : list ref)
  : PortfolioStats * gmap nat Asset :=
  let totalValueHKD := sumValueHKD h refs in
  if Qeq_bool totalValueHKD 0 then
    ({| weightedReturn := 0; weightedYield := 0;
        weightedVolatility := 0; totalValue := 0 |}, h)
  else
    let st := foldl (secondPass totalValueHKD)
                    {| acc_return := 0; acc_yield := 0;
                       acc_volatility := 0; acc_store := h |} refs in
    ({| weightedReturn := acc_return st; weightedYield := acc_yield st;
        weightedVolatility := acc_volatility st;
        totalValue := totalValueHKD |}, acc_store st).

Definition calculateRequiredCapital (targetMonthlyIncome annualYield : Q) : Q :=
  if Qle_bool annualYield 0 then 0
  else (targetMonthlyIncome * 12) / (annualYield / 100).

(** ** Projection simulator *)

(** The running variables of [calculateCompoundInterest]. *)
Record SimState := mkSimState {
  currentBalance : Q;
  totalContributed : Q;
  accAppreciation : Q;
  accDividends : Q;
  mortgageBalance : Q;
  monthsRemainingOnMortgage : Z
}.

(** [events.find(e => e.type === 'RETIREMENT_EARLY')] and the age that
    follows from it. *)
Definition isEarlyRetirement (e : LifecycleEvent) : bool :=
  event_type_eqb (etype e) RETIREMENT_EARLY.

Definition effectiveRetirementAge (params : CalculationParams)
    (evs : list LifecycleEvent) : Q :=
  match List.find isEarlyRetirement evs with
  | Some earlyRetireEvent => inject_Z (retirementAge params) - value earlyRetireEvent
  | None => inject_Z (retirementAge params)
  end.

(** [age >= e.startAge && age < e.startAge + (e.duration || 1)] *)
Definition isActive (a : Z) (e : LifecycleEvent) : bool :=
  (startAge e <=? a)%Z && (a <? startAge e + Js.or_elseZ (duration e) 1)%Z.

Definition hasType (t : SimulationEventType) (e : LifecycleEvent) : bool :=
  event_type_eqb (etype e) t.

Definition isExpense (e : LifecycleEvent) : bool :=
  hasType ONE_TIME_EXPENSE e || hasType RECURRING_EXPENSE e.

(** The three [forEach] bodies run at the start of a year. *)
Definition crash (b : Q) (e : LifecycleEvent) : Q := b * (1 - value e / 100).

Definition reduceRates (r : Q * Q) (e : LifecycleEvent) : Q * Q :=
  (fst r * (1 - value e / 100), snd r * (1 - value e / 100)).

Definition expense (b : Q) (e : LifecycleEvent) : Q := b - value e.

(** One iteration of the monthly loop. *)
Definition month_step (m : MortgageParams)
    (mortgageMonthlyPayment monthlyMortgageRate effectiveMonthlyContrib
     monthlyAppreciationRate monthlyDividendRate : Q)
    (st : SimState) : SimState :=
  let '(mortgageBalance', monthsRemaining', extraInvestFromMortgage) :=
    if (0 <? monthsRemainingOnMortgage st)%Z then
      let interestPayment := mortgageBalance st * monthlyMortgageRate in
      let principalPayment := mortgageMonthlyPayment - interestPayment in
      (if Js.ltb principalPayment (mortgageBalance st)
       then mortgageBalance st - principalPayment else 0,
       (monthsRemainingOnMortgage st - 1)%Z, 0)
    else
      (mortgageBalance st, monthsRemainingOnMortgage st,
       if hasMortgage m && reinvestAfterPayoff m then mortgageMonthlyPayment else 0)
  in
  let totalMonthlyInput := effectiveMonthlyContrib + extraInvestFromMortgage in
  let balance := currentBalance st + totalMonthlyInput in
  let appreciationAmount := balance * monthlyAppreciationRate in
  let dividendAmount := balance * monthlyDividendRate in
  {| currentBalance := balance + (appreciationAmount + dividendAmount);
     totalContributed := totalContributed st + totalMonthlyInput;
     accAppreciation := accAppreciation st + appreciationAmount;
     accDividends := accDividends st + dividendAmount;
     mortgageBalance := mortgageBalance';
     monthsRemainingOnMortgage := monthsRemaining' |}.

(** What stays fixed across the yearly loop. *)
Record Plan := mkPlan {
  plan_params : CalculationParams;
  plan_events : list LifecycleEvent;
  plan_retirementAge : Q;
  annualPriceAppreciation : Q;
  annualDividendYield : Q;
  mortgageMonthlyPayment : Q;
  plan_currentYear : Z
}.

(** The record pushed at the end of simulated year [y]. *)
Definition yearRecord (pl : Plan) (y : Z) (effectiveYield : Q) (st : SimState)
  : YearlyResult :=
  let discountFactor :=
    Js.Math_pow (1 + inflationRate (plan_params pl) / 100) (- y)%Z in
  {| age := (currentAge (plan_params pl) + y)%Z;
     year := (plan_currentYear pl + y)%Z;
     totalPrincipal := Js.Math_round (totalContributed st);
     totalAppreciation := Js.Math_round (accAppreciation st);
     totalDividends := Js.Math_round (accDividends st);
     totalBalance := Js.Math_round (currentBalance st);
     totalLiabilities := Js.Math_round (mortgageBalance st);
     netWorth := Js.Math_round (currentBalance st - mortgageBalance st);
     yearlyPassiveIncome :=
       Js.Math_round (currentBalance st * (effectiveYield / 100));
     totalPrincipalReal := Js.Math_round (totalContributed st * discountFactor);
     totalAppreciationReal := Js.Math_round (accAppreciation st * discountFactor);
     totalDividendsReal := Js.Math_round (accDividends st * discountFactor);
     totalBalanceReal := Js.Math_round (currentBalance st * discountFactor);
     totalLiabilitiesReal := Js.Math_round (mortgageBalance st * discountFactor);
     netWorthReal :=
       Js.Math_round ((currentBalance st - mortgageBalance st) * discountFactor);
     yearlyPassiveIncomeReal :=
       Js.Math_round ((currentBalance st * (effectiveYield / 100)) * discountFactor) |}.

(** The state with which the monthly loop of a year starts, and the
    rates and contributions in force during that year. *)
Record YearSetup := mkYearSetup {
  startState : SimState;
  effectiveAppreciation : Q;
  effectiveYield : Q;
  effectiveMonthlyContrib : Q;
  effectiveAnnualContrib : Q
}.

Definition with_balance (st : SimState) (b : Q) : SimState :=
  {| currentBalance := b;
     totalContributed := totalContributed st;
     accAppreciation := accAppreciation st;
     accDividends := accDividends st;
     mortgageBalance := mortgageBalance st;
     monthsRemainingOnMortgage := monthsRemainingOnMortgage st |}.

Definition yearSetup (pl : Plan) (y : Z) (st : SimState) : YearSetup :=
  let params := plan_params pl in
  let a := (currentAge params + y)%Z in
  let isRetired := Qle_bool (plan_retirementAge pl) (inject_Z a) in
  let yearEvents := List.filter (isActive a) (plan_events pl) in
  let crashEvents := List.filter (hasType MARKET_CRASH) yearEvents in
  let balance1 := fold_left crash crashEvents (currentBalance st) in
  let returnEvents := List.filter (hasType RETURN_REDUCTION) yearEvents in
  let rates :=
    fold_left reduceRates returnEvents
              (annualPriceAppreciation pl, annualDividendYield pl) in
  let expenseEvents := List.filter isExpense yearEvents in
  let balance2 := fold_left expense expenseEvents balance1 in
  let contribStopEvents := List.filter (hasType CONTRIBUTION_STOP) yearEvents in
  let stopped := (0 <? length contribStopEvents)%nat in
  {| startState := with_balance st balance2;
     effectiveAppreciation := fst rates;
     effectiveYield := snd rates;
     effectiveMonthlyContrib :=
       if stopped then 0
       else if isRetired then 0 else monthlyContribution params;
     effectiveAnnualContrib :=
       if stopped then 0
       else if isRetired then 0 else annualExtraContribution params |}.

(** The year-end contribution. *)
Definition yearEnd (st : SimState) (effectiveAnnualContrib : Q) : SimState :=
  {| currentBalance := currentBalance st + effectiveAnnualContrib;
     totalContributed := totalContributed st + effectiveAnnualContrib;
     accAppreciation := accAppreciation st;
     accDividends := accDividends st;
     mortgageBalance := mortgageBalance st;
     monthsRemainingOnMortgage := monthsRemainingOnMortgage st |}.

(** The twelve months of a year. *)
Definition monthlyLoop (pl : Plan) (su : YearSetup) : SimState :=
  let params := plan_params pl in
  let monthlyAppreciationRate := effectiveAppreciation su / 100 / 12 in
  let monthlyDividendRate := effectiveYield su / 100 / 12 in
  let monthlyMortgageRate := (annualRate (mortgage params) / 100) / 12 in
  Nat.iter 12
    (month_step (mortgage params) (mortgageMonthlyPayment pl) monthlyMortgageRate
                (effectiveMonthlyContrib su)
                monthlyAppreciationRate monthlyDividendRate)
    (startState su).

(** One iteration of the yearly loop: the new running state and the
    record pushed. *)
Definition year_step (pl : Plan) (y : Z) (st : SimState) : SimState * YearlyResult :=
  let su := yearSetup pl y st in
  let st1 := monthlyLoop pl su in
  let st2 := yearEnd st1 (effectiveAnnualContrib su) in
  (st2, yearRecord pl y (effectiveYield su) st2).

(** [for (let year = y; ...; year++)], [n] iterations. *)
Fixpoint yearly_loop (pl : Plan) (n : nat) (y : Z) (st : SimState)
  : list YearlyResult :=
  match n with
  | O => []
  | S n' =>
      let '(st', r) := year_step pl y st in
      r :: yearly_loop pl n' (y + 1)%Z st'
  end.

Definition initialMortgagePayment (m : MortgageParams) : Q :=
  if hasMortgage m && Js.ltb 0 (remainingPrincipal m)
     && (0 <? remainingYears m)%Z
  then
    if Js.ltb 0 (monthlyPayment m) then monthlyPayment m
    else calculatePMT (annualRate m) (remainingYears m * 12)%Z (remainingPrincipal m)
  else 0.

Definition makePlan (params : CalculationParams) (evs : list LifecycleEvent)
    (stats : PortfolioStats) (currentYear : Z) : Plan :=
  {| plan_params := params;
     plan_events := evs;
     plan_retirementAge := effectiveRetirementAge params evs;
     annualPriceAppreciation :=
       if useManualReturn params then manualReturnRate params
       else weightedReturn stats;
     annualDividendYield :=
       if useManualReturn params then manualDividendYield params
       else weightedYield stats;
     mortgageMonthlyPayment := initialMortgagePayment (mortgage params);
     plan_currentYear := currentYear |}.

Definition initialState (params : CalculationParams) : SimState :=
  let m := mortgage params in
  {| currentBalance := initialPrincipal params;
     totalContributed := initialPrincipal params;
     accAppreciation := 0;
     accDividends := 0;
     mortgageBalance := if hasMortgage m then remainingPrincipal m else 0;
     monthsRemainingOnMortgage :=
       if hasMortgage m then (remainingYears m * 12)%Z else 0%Z |}.

(** The record of the starting age. *)
Definition firstRecord (pl : Plan) (st : SimState) : YearlyResult :=
  let params := plan_params pl in
  {| age := currentAge params;
     year := plan_currentYear pl;
     totalPrincipal := totalContributed st;
     totalAppreciation := 0;
     totalDividends := 0;
     totalBalance := currentBalance st;
     totalLiabilities := mortgageBalance st;
     netWorth := currentBalance st - mortgageBalance st;
     yearlyPassiveIncome :=
       initialPrincipal params * (annualDividendYield pl / 100);
     totalPrincipalReal := totalContributed st;
     totalAppreciationReal := 0;
     totalDividendsReal := 0;
     totalBalanceReal := currentBalance st;
     totalLiabilitiesReal := mortgageBalance st;
     netWorthReal := currentBalance st - mortgageBalance st;
     yearlyPassiveIncomeReal :=
       initialPrincipal params * (annualDividendYield pl / 100) |}.

(** The part of [calculateCompoundInterest] that follows the call to the
    aggregator. *)
Definition project (pl : Plan) (lifeExpectancy : Z) : list YearlyResult :=
  let params := plan_params pl in
  let yearsToSimulate := (lifeExpectancy - currentAge params)%Z in
  if (yearsToSimulate <=? 0)%Z then []
  else
    let st := initialState params in
    firstRecord pl st :: yearly_loop pl (Z.to_nat yearsToSimulate) 1%Z st.

(** [calculateCompoundInterest(params, events, lifeExpectancy)]; a
    caller that omits [events] or [lifeExpectancy] passes [[]] and [85].
    The default of the destructured [inflationRate] applies to an absent
    field only, which [CalculationParams] does not allow. *)
Definition calculateCompoundInterest (h : store) (params : CalculationParams)
    (evs : list LifecycleEvent) (lifeExpectancy : Z) (currentYear : Z)
  : list YearlyResult * gmap nat Asset :=
  let '(stats, h') := calculatePortfolioStats h (assets params) in
  (project (makePlan params evs stats currentYear) lifeExpectancy, h').

(** ** Monte Carlo engine

    [randn k] is the value of the [k]-th call to [randn_bm]. *)

(** Insertion into an ascending run, as [sort((a, b) => a - b)] orders. *)
Fixpoint insert_sorted (x : Q) (l : list Q) : list Q :=
  match l with
  | [] => [x]
  | y :: l' => if Js.ltb x y then x :: y :: l' else y :: insert_sorted x l'
  end.

Definition sort_numbers (l : list Q) : list Q :=
  foldl (fun sorted x => insert_sorted x sorted) [] l.

(** The inner loop over years of one trial: pushes the balance of each
    year [y .. y + n - 1] and consumes one deviate per year. *)
Fixpoint trial_years (params : CalculationParams)
    (totalExpectedReturnMean volatilityStdDev : Q) (randn : nat -> Q)
    (n : nat) (y : nat) (balance : Q) (k : nat) (resultsByYear : list (list Q))
  : list (list Q) * nat :=
  match n with
  | O => (resultsByYear, k)
  | S n' =>
      let annualContrib :=
        monthlyContribution params * 12 + annualExtraContribution params in
      let randomReturn := totalExpectedReturnMean + volatilityStdDev * randn k in
      let balance1 := balance * (1 + randomReturn) + annualContrib in
      let balance2 := if Js.ltb balance1 0 then 0 else balance1 in
      trial_years params totalExpectedReturnMean volatilityStdDev randn
                  n' (S y) balance2 (S k)
                  (alter (fun bs => bs ++ [balance2]) y resultsByYear)
  end.

(** The outer loop over trials; [None] when [resultsByYear[0]] does not
    exist and the push raises a TypeError. *)
Fixpoint trials (params : CalculationParams)
    (totalExpectedReturnMean volatilityStdDev : Q) (randn : nat -> Q)
    (years : nat) (s : nat) (k : nat) (resultsByYear : list (list Q))
  : option (list (list Q)) :=
  match s with
  | O => Some resultsByYear
  | S s' =>
      match resultsByYear !! 0%nat with
      | None => None
      | Some _ =>
          let balance := initialPrincipal params in
          let r0 := alter (fun bs => bs ++ [balance]) 0%nat resultsByYear in
          let '(r1, k') :=
            trial_years params totalExpectedReturnMean volatilityStdDev randn
                        years 1%nat balance k r0 in
          trials params totalExpectedReturnMean volatilityStdDev randn
                 years s' k' r1
      end
  end.

(** [Math.round(balances[Math.floor(simulations * p)])] for [p] in tenths. *)
Definition percentile (balances : list Q) (simulations : Z) (tenths : Z)
  : option Q :=
  let i := Js.Math_floor (inject_Z simulations * (inject_Z tenths / 10)) in
  if (i <? 0)%Z then None
  else Js.Math_round <$> (balances !! Z.to_nat i).

Definition runMonteCarloSimulation (h : store) (params : CalculationParams)
    (simulations : Z) (randn : nat -> Q) (currentYear : Z)
  : option (list SimulationResult) * gmap nat Asset :=
  let '(stats, h') := calculatePortfolioStats h (assets params) in
  let baseReturn :=
    if useManualReturn params then manualReturnRate params
    else weightedReturn stats in
  let baseYield :=
    if useManualReturn params then manualDividendYield params
    else weightedYield stats in
  let totalExpectedReturnMean := (baseReturn + baseYield) / 100 in
  let volatilityStdDev := weightedVolatility stats / 100 in
  let years := (retirementAge params - currentAge params)%Z in
  let resultsByYear : list (list Q) := replicate (Z.to_nat (years + 1)) [] in
  (match trials params totalExpectedReturnMean volatilityStdDev randn
                (Z.to_nat years) (Z.to_nat simulations) 0%nat resultsByYear with
   | None => None
   | Some filled =>
       Some (imap (fun index balances =>
                     let sorted := sort_numbers balances in
                     {| sim_year := (currentYear + Z.of_nat index)%Z;
                        sim_age := (currentAge params + Z.of_nat index)%Z;
                        p10 := percentile sorted simulations 1;
                        p50 := percentile sorted simulations 5;
                        p90 := percentile sorted simulations 9 |})
                  filled)
   end, h').

(** ** Stress test runner *)

Definition scenarios (params : CalculationParams) : list StressTestScenario :=
  let ev s d t v :=
    {| startAge := s; duration := Some d; etype := t; value := v;
       ename := None |} in
  let sc i t d evs le :=
    {| sid := i; title := t; description := d; events := evs;
       customRetirementAge := None; customLifeExpectancy := le |} in
  [ sc "unemployment"%string "中年失業危機"%string
       "40歲時失業 2 年，期間無法投入資金，且需消耗存款維持生活。"%string
       [ ev 40%Z 2%Z CONTRIBUTION_STOP 0;
         ev 40%Z 2%Z RECURRING_EXPENSE (inject_Z 300000) ] None;
    sc "illness"%string "突發重病"%string
       "50歲時遭遇重大傷病，一次性支出 150 萬醫療費。"%string
       [ ev 50%Z 1%Z ONE_TIME_EXPENSE (inject_Z 1500000) ] None;
    sc "crash"%string "退休前夕崩盤"%string
       "退休該年遭遇金融海嘯，資產瞬間縮水 40%。"%string
       [ ev (retirementAge params) 1%Z MARKET_CRASH 40 ] None;
    sc "care"%string "長期照護需求"%string
       "75歲起需要長期照護，每年額外支出 48 萬，直到 85 歲。"%string
       [ ev 75%Z 10%Z RECURRING_EXPENSE (inject_Z 480000) ] None;
    sc "early_retire"%string "被迫提早退休"%string
       "因公司裁員或家庭因素，提早 5 年退休，縮短了累積期。"%string
       [ ev (retirementAge params - 5)%Z 1%Z RETIREMENT_EARLY 5 ] None;
    sc "low_return"%string "長期低回報"%string
       "全球進入經濟停滯期，年化報酬率長期減少 30%。"%string
       [ ev (currentAge params) 50%Z RETURN_REDUCTION 30 ] None;
    sc "inflation"%string "惡性通膨"%string
       "購買力下降，相當於每年生活成本大增 (模擬為資產縮水)。"%string
       [ ev (currentAge params) 50%Z RETURN_REDUCTION 20 ] None;
    sc "longevity"%string "長壽風險 (100歲)"%string
       "活到 100 歲，退休金是否足夠支撐多出來的 15 年？"%string
       [] (Some 100%Z);
    sc "perfect_storm"%string "完美風暴 (最慘)"%string
       "提早退休 + 退休崩盤 + 重病。地獄級難度。"%string
       [ ev (retirementAge params - 5)%Z 1%Z RETIREMENT_EARLY 5;
         ev (retirementAge params - 5)%Z 1%Z MARKET_CRASH 30;
         ev 60%Z 1%Z ONE_TIME_EXPENSE (inject_Z 1000000) ] None ].

(** [res[res.length - 1]?.totalBalance || 0] *)
Definition lastBalance (res : list YearlyResult) : Q :=
  match last res with
  | Some r => Js.or_else (totalBalance r) 0
  | None => 0
  end.

(** The body of [scenarios.map] once the projection [res] is known. *)
Definition outcome (sc : StressTestScenario) (res : list YearlyResult)
    (baseline : Q) : StressTestResult :=
  let final := lastBalance res in
  let bankruptYear := List.find (fun r => Js.ltb (totalBalance r) 0) res in
  let bankrupt := match bankruptYear with Some _ => true | None => false end in
  let ratio := if Js.ltb 0 baseline then final / baseline else 0 in
  let status1 :=
    if bankrupt || Qle_bool final 0 then DANGER
    else if Js.ltb ratio (5 # 10) then DANGER
    else if Js.ltb ratio (8 # 10) then WARNING
    else SAFE in
  let status2 :=
    if String.eqb (sid sc) "longevity" && Js.ltb 0 final then SAFE else status1 in
  {| scenario := sc;
     finalBalance := final;
     baselineBalance := baseline;
     difference := final - baseline;
     isBankrupt := bankrupt;
     bankruptAge := age <$> bankruptYear;
     status := status2 |}.

(** [scenarios.map(...)]: one projection per scenario, each on the store
    the previous one left. *)
Fixpoint run_scenarios (h : store) (params : CalculationParams)
    (baseline : Q) (currentYear : Z) (scs : list StressTestScenario)
  : list StressTestResult * gmap nat Asset :=
  match scs with
  | [] => ([], h)
  | sc :: rest =>
      let lifeExpectancy := Js.or_elseZ (customLifeExpectancy sc) 85 in
      let '(res, h1) :=
        calculateCompoundInterest h params (events sc) lifeExpectancy currentYear in
      let '(outs, h2) := run_scenarios h1 params baseline currentYear rest in
      (outcome sc res baseline :: outs, h2)
  end.

Definition runStressTests (h : store) (params : CalculationParams)
    (currentYear : Z) : list StressTestResult * gmap nat Asset :=
  let '(baselineResults, h1) :=
    calculateCompoundInterest h params [] 85 currentYear in
  let baseline := lastBalance baselineResults in
  run_scenarios h1 params baseline currentYear (scenarios params).

(** ** Calls on the caller's objects

    The entry points are handed a reference to the caller's parameter
    object.  They read it (its fields, its [mortgage] sub-object and its
    [assets] array) and never assign to it: what they write are the
    [allocation] fields of the asset objects, through the aggregator. *)

(** The caller's objects: the asset objects, and the parameter objects,
    each with its mortgage sub-object and the references of its assets. *)
Record Memory := mkMemory {
  assetObjects : gmap nat Asset;
  paramObjects : gmap nat CalculationParams
}.

(** A call [f(params, ...)] on the parameter object at [p]; [None] when
    there is no such object. *)
Definition call {R : Type}
    (f : gmap nat Asset → CalculationParams → R * gmap nat Asset)
    (m : Memory) (p : nat) : option R * Memory :=
  match paramObjects m !! p with
  | Some params =>
      let '(r, h') := f (assetObjects m) params in
      (Some r, {| assetObjects := h'; paramObjects := paramObjects m |})
  | None => (None, m)
  end.

(** ** Gap analyzer *)

Definition calculateGapAnalysis (realStats simulatedStats : PortfolioStats)
    (yearsToRetirement : Z) : GapAnalysisResult :=
  let fvReal :=
    totalValue realStats
    * Js.Math_pow (1 + (weightedReturn realStats + weightedYield realStats) / 100)
                  yearsToRetirement in
  let fvSimulated :=
    totalValue simulatedStats
    * Js.Math_pow (1 + (weightedReturn simulatedStats
                        + weightedYield simulatedStats) / 100)
                  yearsToRetirement in
  let gap := fvSimulated - fvReal in
  let conservative := 45 # 1000 in
  let suggested :=
    if Js.ltb 0 gap then gap / Js.Math_pow (1 + conservative) yearsToRetirement
    else 0 in
  {| shortfall := gap;
     suggestedConservativeAmount := suggested;
     conservativeYield := conservative * 100 |}.

(** ** Hong Kong benchmark table *)

Record HKBenchmarkData := mkBenchmark {
  ageRange : string;
  minAge : Z;
  maxAge : Z;
  medianIncome : Q;
  medianAssets : Q;
  top10Income : Q;
  top10Assets : Q
}.

Definition HK_BENCHMARKS : list HKBenchmarkData :=
  [ {| ageRange := "20-24"; minAge := 20; maxAge := 24;
       medianIncome := inject_Z 16500; medianAssets := inject_Z 80000;
       top10Income := inject_Z 28000; top10Assets := inject_Z 350000 |};
    {| ageRange := "25-29"; minAge := 25; maxAge := 29;
       medianIncome := inject_Z 21500; medianAssets := inject_Z 250000;
       top10Income := inject_Z 45000; top10Assets := inject_Z 1200000 |};
    {| ageRange := "30-34"; minAge := 30; maxAge := 34;
       medianIncome := inject_Z 25800; medianAssets := inject_Z 600000;
       top10Income := inject_Z 65000; top10Assets := inject_Z 2500000 |};
    {| ageRange := "35-39"; minAge := 35; maxAge := 39;
       medianIncome := inject_Z 30500; medianAssets := inject_Z 1200000;
       top10Income := inject_Z 85000; top10Assets := inject_Z 5000000 |};
    {| ageRange := "40-44"; minAge := 40; maxAge := 44;
       medianIncome := inject_Z 33000; medianAssets := inject_Z 2200000;
       top10Income := inject_Z 95000; top10Assets := inject_Z 8000000 |};
    {| ageRange := "45-49"; minAge := 45; maxAge := 49;
       medianIncome := inject_Z 34500; medianAssets := inject_Z 3500000;
       top10Income := inject_Z 100000; top10Assets := inject_Z 12000000 |};
    {| ageRange := "50-59"; minAge := 50; maxAge := 59;
       medianIncome := inject_Z 32000; medianAssets := inject_Z 4500000;
       top10Income := inject_Z 90000; top10Assets := inject_Z 15000000 |};
    {| ageRange := "60+"; minAge := 60; maxAge := 100;
       medianIncome := inject_Z 20000; medianAssets := inject_Z 5000000;
       top10Income := inject_Z 60000; top10Assets := inject_Z 20000000 |} ].

(** [HK_BENCHMARKS.find(...) || HK_BENCHMARKS[HK_BENCHMARKS.length - 1]];
    [None] is [undefined]. *)
Definition getHKBenchmark (age : Z) : option HKBenchmarkData :=
  match List.find (fun b => (minAge b <=? age)%Z && (age <=? maxAge b)%Z)
                  HK_BENCHMARKS with
  | Some b => Some b
  | None => last HK_BENCHMARKS
  end.

(** * Vocabulary of the properties *)

(** An asset with its allocation erased: everything the aggregator
    reads. *)
Definition core (a : Asset) : Asset := set_allocation a 0.

(** Two stores hold the same objects up to their allocation fields. *)
Definition agree (h h' : gmap nat Asset) : Prop :=
  ∀ l, core <$> h' !! l = core <$> h !! l.

(** The value the second pass stores, and the write itself. *)
Definition allocationOf (total : Q) (a : Asset) : Q :=
  Js.toFixed1 (hkdValueOf a / total * 100).

Definition writeAllocation (total : Q) (a : Asset) : Asset :=
  set_allocation a (allocationOf total a).

Definition writeBack (total : Q) (refs : list nat) (h : gmap nat Asset)
  : gmap nat Asset :=
  foldl (fun h l => alter (writeAllocation total) l h) h refs.

(** The weighted sum of one metric, read off a fixed store. *)
Definition weightedStep (f : Asset → Q) (h : gmap nat Asset) (total : Q)
    (acc : Q) (l : nat) : Q :=
  match h !! l with
  | Some a => acc + f a * (hkdValueOf a / total)
  | None => acc
  end.

Definition weightedSum (f : Asset → Q) (h : gmap nat Asset) (total : Q)
    (refs : list nat) (acc : Q) : Q :=
  foldl (weightedStep f h total) acc refs.

(** The aggregator, in closed form. *)
Definition statsOf (h : gmap nat Asset) (refs : list nat) : PortfolioStats :=
  let total := sumValueHKD h refs in
  if Qeq_bool total 0 then
    {| weightedReturn := 0; weightedYield := 0;
       weightedVolatility := 0; totalValue := 0 |}
  else
    {| weightedReturn := weightedSum expectedReturn h total refs 0;
       weightedYield := weightedSum dividendYield h total refs 0;
       weightedVolatility := weightedSum volatility h total refs 0;
       totalValue := total |}.

Definition storeAfter (h : gmap nat Asset) (refs : list nat) : gmap nat Asset :=
  let total := sumValueHKD h refs in
  if Qeq_bool total 0 then h else writeBack total refs h.

(** The projection a scenario is judged on. *)
Definition scenarioProjection (h : gmap nat Asset) (params : CalculationParams)
    (cy : Z) (sc : StressTestScenario) : list YearlyResult :=
  fst (calculateCompoundInterest h params (events sc)
         (Js.or_elseZ (customLifeExpectancy sc) 85) cy).

(** The sum of the allocation fields of the holdings of a list, as
    found in a store. *)
Definition allocationStep (h : gmap nat Asset) (acc : Q) (l : nat) : Q :=
  match h !! l with
  | Some a => (acc + allocation a)%Q
  | None => acc
  end.

Definition allocationSum (h : gmap nat Asset) (refs : list nat) : Q :=
  foldl (allocationStep h) 0 refs.

(** The exact percentage shares, summed the same way. *)
Definition shareStep (h : gmap nat Asset) (total : Q) (acc : Q) (l : nat) : Q :=
  match h !! l with
  | Some a => (acc + hkdValueOf a / total * 100)%Q
  | None => acc
  end.

(** The records pushed by the yearly loop round the balance, the
    liabilities and their difference separately. *)
Definition roundedSeparately (r : YearlyResult) : Prop :=
  ∃ b m d : Q,
    totalBalance r = Js.Math_round b
    ∧ totalLiabilities r = Js.Math_round m
    ∧ netWorth r = Js.Math_round (b - m)
    ∧ totalBalanceReal r = Js.Math_round (b * d)
    ∧ totalLiabilitiesReal r = Js.Math_round (m * d)
    ∧ netWorthReal r = Js.Math_round ((b - m) * d).

Definition netWorthWithinOne (r : YearlyResult) : Prop :=
  Qabs (netWorth r - (totalBalance r - totalLiabilities r))%Q <= 1
  ∧ Qabs (netWorthReal r - (totalBalanceReal r - totalLiabilitiesReal r))%Q <= 1.

Definition netWorthExact (r : YearlyResult) : Prop :=
  netWorth r == totalBalance r - totalLiabilities r
  ∧ netWorthReal r == totalBalanceReal r - totalLiabilitiesReal r.

(** A plan with a mortgage that is not being paid down and no growth:
    balance 100000.25 against a mortgage of 50000.75. *)
Definition flatMortgageParams : CalculationParams :=
  {| currentAge := 30; retirementAge := 65;
     monthlyIncome := 0; targetMonthlyIncome := 0; targetAnnualYield := 0;
     initialPrincipal := 400001 # 4;
     monthlyContribution := 0; annualExtraContribution := 0;
     inflationRate := 0;
     mortgage :=
       {| hasMortgage := true; remainingPrincipal := 200003 # 4;
          annualRate := 0; remainingYears := 0; monthlyPayment := 0;
          reinvestAfterPayoff := false |};
     useManualReturn := true; manualReturnRate := 0; manualDividendYield := 0;
     assets := []; simulatedAssets := []; lastPortfolioUpdate := None |}.

(** The record that [flatMortgageParams] yields after one year. *)
Definition flatYearOne : YearlyResult :=
  {| age := 31; year := 2026;
     totalPrincipal := 100000; totalAppreciation := 0; totalDividends := 0;
     totalBalance := 100000; totalLiabilities := 50001; netWorth := 50000;
     yearlyPassiveIncome := 0;
     totalPrincipalReal := 100000; totalAppreciationReal := 0;
     totalDividendsReal := 0;
     totalBalanceReal := 100000; totalLiabilitiesReal := 50001;
     netWorthReal := 50000;
     yearlyPassiveIncomeReal := 0 |}.





(** Some StopContributions event is active. *)
Definition contributionsStopped (a : Z) (evs : list LifecycleEvent) : bool :=
  existsb (fun e => isActive a e && hasType CONTRIBUTION_STOP e) evs.

(** The ratio of the specification: [finalBalance / baselineBalance],
    taken as 0 when the baseline is not positive. *)
Definition stressRatio (final baseline : Q) : Q :=
  if Qle_bool baseline 0 then 0 else final / baseline.

(** A store with one holding of zero value whose allocation field reads
    50, and a plan over it. *)
Definition idleAsset : Asset :=
  {| id := "1"; name := "cash"; symbol := None; type := Cash; region := Asia;
     currency := HKD; allocation := 50; quantity := 0;
     expectedReturn := 1; dividendYield := 0; volatility := 0;
     currentPrice := 10; weeklyChange := 0 |}.

Definition idleStore : gmap nat Asset := {[ 1%nat := idleAsset ]}.

Definition idleParams : CalculationParams :=
  {| currentAge := 30; retirementAge := 65;
     monthlyIncome := 0; targetMonthlyIncome := 0; targetAnnualYield := 0;
     initialPrincipal := 0;
     monthlyContribution := 0; annualExtraContribution := 0;
     inflationRate := 0;
     mortgage :=
       {| hasMortgage := false; remainingPrincipal := 0;
          annualRate := 0; remainingYears := 0; monthlyPayment := 0;
          reinvestAfterPayoff := false |};
     useManualReturn := false; manualReturnRate := 0; manualDividendYield := 0;
     assets := [1%nat]; simulatedAssets := []; lastPortfolioUpdate := None |}.

(** Two holdings in HKD worth 1 and 3. *)
Definition quarterStore : gmap nat Asset :=
  {[ 1%nat := {| id := "1"; name := "a"; symbol := None; type := Stock;
                 region := Asia; currency := HKD; allocation := 0;
                 quantity := 1; expectedReturn := 8; dividendYield := 1;
                 volatility := 20; currentPrice := 1; weeklyChange := 0 |};
     2%nat := {| id := "2"; name := "b"; symbol := None; type := Bond;
                 region := Asia; currency := HKD; allocation := 0;
                 quantity := 3; expectedReturn := 4; dividendYield := 5;
                 volatility := 4; currentPrice := 1; weeklyChange := 0 |} ]}.

(** An early retirement of five years in second place, behind an expense. *)
Definition retireEarlyEvents : list LifecycleEvent :=
  [ {| startAge := 50; duration := Some 1%Z; etype := ONE_TIME_EXPENSE;
       value := 1000; ename := None |};
    {| startAge := 60; duration := Some 1%Z; etype := RETIREMENT_EARLY;
       value := 5; ename := None |} ].

(** ** Vocabulary of the further properties *)

(** The running state after [n] iterations of the yearly loop. *)
Fixpoint runYears (pl : Plan) (n : nat) (y : Z) (st : SimState) : SimState :=
  match n with
  | O => st
  | S n' => runYears pl n' (y + 1)%Z (fst (year_step pl y st))
  end.

(** What a month adds to the investments besides the contribution: the
    former mortgage payment, once the term is over. *)
Definition extraInvest (m : MortgageParams) (payment : Q) (st : SimState) : Q :=
  if (0 <? monthsRemainingOnMortgage st)%Z then 0
  else if hasMortgage m && reinvestAfterPayoff m then payment else 0.


(** No event of the list is a market crash or an expense. *)
Definition noBalanceEvents (evs : list LifecycleEvent) : Prop :=
  ∀ e, e ∈ evs →
    etype e ≠ MARKET_CRASH ∧ etype e ≠ ONE_TIME_EXPENSE
    ∧ etype e ≠ RECURRING_EXPENSE.

(** Two years without contributions from age 31, returns cut by half. *)
Definition leanYearsEvents : list LifecycleEvent :=
  [ {| startAge := 31; duration := Some 2%Z; etype := CONTRIBUTION_STOP;
       value := 0; ename := None |};
    {| startAge := 31; duration := Some 2%Z; etype := RETURN_REDUCTION;
       value := 50; ename := None |} ].

(** The appreciation and yield rates a projection runs with: the manual
    ones under the override, the portfolio's weighted ones otherwise. *)
Definition ratesInForce (h : gmap nat Asset) (params : CalculationParams)
  : Q * Q :=
  let stats := fst (calculatePortfolioStats h (assets params)) in
  (if useManualReturn params then manualReturnRate params
   else weightedReturn stats,
   if useManualReturn params then manualDividendYield params
   else weightedYield stats).

(** Events that touch neither the balance nor the sign of the rates:
    contribution stops, early retirements, and return reductions of at
    most 100 percent. *)
Definition gentleEvents (evs : list LifecycleEvent) : Prop :=
  ∀ e, e ∈ evs →
    etype e = CONTRIBUTION_STOP ∨ etype e = RETIREMENT_EARLY
    ∨ (etype e = RETURN_REDUCTION ∧ value e <= 100).

(** No event of the list is an early retirement, and none is active at
    any age after [from] up to [upto]. *)
Definition dormantEvents (evs : list LifecycleEvent) (from upto : Z) : Prop :=
  ∀ e, e ∈ evs →
    etype e ≠ RETIREMENT_EARLY
    ∧ ∀ a, (from < a <= upto)%Z → isActive a e = false.

(** A saver of 1000 a month who retires at 32, with no growth, and the
    records of ages 31 and 32. *)
Definition saverParams : CalculationParams :=
  {| currentAge := 30; retirementAge := 32;
     monthlyIncome := 0; targetMonthlyIncome := 0; targetAnnualYield := 0;
     initialPrincipal := 0;
     monthlyContribution := 1000; annualExtraContribution := 0;
     inflationRate := 0;
     mortgage :=
       {| hasMortgage := false; remainingPrincipal := 0;
          annualRate := 0; remainingYears := 0; monthlyPayment := 0;
          reinvestAfterPayoff := false |};
     useManualReturn := true; manualReturnRate := 0; manualDividendYield := 0;
     assets := []; simulatedAssets := []; lastPortfolioUpdate := None |}.

Definition saverAt (a y : Z) : YearlyResult :=
  {| age := a; year := y;
     totalPrincipal := 12000; totalAppreciation := 0; totalDividends := 0;
     totalBalance := 12000; totalLiabilities := 0; netWorth := 12000;
     yearlyPassiveIncome := 0;
     totalPrincipalReal := 12000; totalAppreciationReal := 0;
     totalDividendsReal := 0;
     totalBalanceReal := 12000; totalLiabilitiesReal := 0;
     netWorthReal := 12000;
     yearlyPassiveIncomeReal := 0 |}.

(** A 60-year-old with 1000 saved, retired since 55, no growth. *)
Definition elderParams : CalculationParams :=
  {| currentAge := 60; retirementAge := 55;
     monthlyIncome := 0; targetMonthlyIncome := 0; targetAnnualYield := 0;
     initialPrincipal := 1000;
     monthlyContribution := 0; annualExtraContribution := 0;
     inflationRate := 0;
     mortgage :=
       {| hasMortgage := false; remainingPrincipal := 0;
          annualRate := 0; remainingYears := 0; monthlyPayment := 0;
          reinvestAfterPayoff := false |};
     useManualReturn := true; manualReturnRate := 0; manualDividendYield := 0;
     assets := []; simulatedAssets := []; lastPortfolioUpdate := None |}.

(** An illness at 50 that costs 1500000. *)
Definition illnessAt50 : list LifecycleEvent :=
  [ {| startAge := 50; duration := Some 1%Z; etype := ONE_TIME_EXPENSE;
       value := inject_Z 1500000; ename := None |} ].


(** A mortgage of 100000 over two years at 5 percent, payment left to
    the program (4387.13897...: not a number a double holds exactly),
    beside savings of 1000.5. *)
Definition shortLoanParams : CalculationParams :=
  {| currentAge := 30; retirementAge := 65;
     monthlyIncome := 0; targetMonthlyIncome := 0; targetAnnualYield := 0;
     initialPrincipal := 2001 # 2;
     monthlyContribution := 0; annualExtraContribution := 0;
     inflationRate := 2;
     mortgage :=
       {| hasMortgage := true; remainingPrincipal := 100000;
          annualRate := 5; remainingYears := 2; monthlyPayment := 0;
          reinvestAfterPayoff := false |};
     useManualReturn := true; manualReturnRate := 0; manualDividendYield := 0;
     assets := []; simulatedAssets := []; lastPortfolioUpdate := None |}.

(** A mortgage of 1200 over one year at no interest, paid at 50 a month:
    half of it is left when the term ends. *)
Definition underpaidParams : CalculationParams :=
  {| currentAge := 30; retirementAge := 65;
     monthlyIncome := 0; targetMonthlyIncome := 0; targetAnnualYield := 0;
     initialPrincipal := 0;
     monthlyContribution := 0; annualExtraContribution := 0;
     inflationRate := 0;
     mortgage :=
       {| hasMortgage := true; remainingPrincipal := 1200;
          annualRate := 0; remainingYears := 1; monthlyPayment := 50;
          reinvestAfterPayoff := false |};
     useManualReturn := true; manualReturnRate := 0; manualDividendYield := 0;
     assets := []; simulatedAssets := []; lastPortfolioUpdate := None |}.

Definition underpaidAt (a y : Z) : YearlyResult :=
  {| age := a; year := y;
     totalPrincipal := 0; totalAppreciation := 0; totalDividends := 0;
     totalBalance := 0; totalLiabilities := 600; netWorth := -600;
     yearlyPassiveIncome := 0;
     totalPrincipalReal := 0; totalAppreciationReal := 0;
     totalDividendsReal := 0;
     totalBalanceReal := 0; totalLiabilitiesReal := 600;
     netWorthReal := -600;
     yearlyPassiveIncomeReal := 0 |}.

(** The columns of balances while the trials run: after [c] trials every
    year holds [c] balances, all of them the starting principal in the
    first year and none of them negative later. *)
Definition filledRows (principal : Q) (c : nat) (rows : list (list Q)) : Prop :=
  ∀ idx bs,
    rows !! idx = Some bs →
    length bs = c
    ∧ (idx = 0%nat → Forall (eq principal) bs)
    ∧ ((0 < idx)%nat → Forall (Qle 0) bs).


(** A row whose three percentiles are the same number. *)
Definition bandAt (x : Q) (r : SimulationResult) : Prop :=
  p10 r = Some x ∧ p50 r = Some x ∧ p90 r = Some x.


(** A row without percentiles (NaN in all three). *)
Definition bandUndefined (r : SimulationResult) : Prop :=
  p10 r = None ∧ p50 r = None ∧ p90 r = None.

(** A record whose inflation-adjusted figures are its nominal figures. *)
Definition realIsNominal (r : YearlyResult) : Prop :=
  totalPrincipalReal r = totalPrincipal r
  ∧ totalAppreciationReal r = totalAppreciation r
  ∧ totalDividendsReal r = totalDividends r
  ∧ totalBalanceReal r = totalBalance r
  ∧ totalLiabilitiesReal r = totalLiabilities r
  ∧ netWorthReal r = netWorth r
  ∧ yearlyPassiveIncomeReal r = yearlyPassiveIncome r.

(** Every holding of the list that the store has satisfies [P]. *)
Definition holdings (P : Asset → Prop) (h : gmap nat Asset) (refs : list nat)
  : Prop :=
  Forall (fun l => match h !! l with Some a => P a | None => True end) refs.

(** A metric of an asset lies in a range. *)
Definition within (g : Asset → Q) (lo hi : Q) (a : Asset) : Prop :=
  lo <= g a ∧ g a <= hi.

(** Two portfolios worth 1000 and 2000, both growing at five percent. *)
Definition smallStats : PortfolioStats :=
  {| weightedReturn := 4; weightedYield := 1; weightedVolatility := 10;
     totalValue := 1000 |}.

Definition largeStats : PortfolioStats :=
  {| weightedReturn := 4; weightedYield := 1; weightedVolatility := 10;
     totalValue := 2000 |}.

(** A stop of contributions at the age of 31, for one year. *)
Definition pauseAt31 : list LifecycleEvent :=
  [ {| startAge := 31; duration := Some 1%Z; etype := CONTRIBUTION_STOP;
       value := 0; ename := None |} ].

(** A 90-year-old with 1000 saved. *)
Definition ninetyParams : CalculationParams :=
  {| currentAge := 90; retirementAge := 65;
     monthlyIncome := 0; targetMonthlyIncome := 0; targetAnnualYield := 0;
     initialPrincipal := 1000;
     monthlyContribution := 0; annualExtraContribution := 0;
     inflationRate := 0;
     mortgage :=
       {| hasMortgage := false; remainingPrincipal := 0;
          annualRate := 0; remainingYears := 0; monthlyPayment := 0;
          reinvestAfterPayoff := false |};
     useManualReturn := true; manualReturnRate := 0; manualDividendYield := 0;
     assets := []; simulatedAssets := []; lastPortfolioUpdate := None |}.

(** One year of a trial when the deviate does not count: the balance
    grows by the expected return, takes the yearly contributions, and is
    kept from falling below zero. *)
Definition calmGrowth (params : CalculationParams) (mean : Q) (balance : Q) : Q :=
  let annualContrib :=
    monthlyContribution params * 12 + annualExtraContribution params in
  let balance1 := balance * (1 + (mean + 0)) + annualContrib in
  if Js.ltb balance1 0 then 0 else balance1.

(** The columns of balances when every trial goes the same way. *)
Definition calmRows (params : CalculationParams) (mean : Q) (c : nat)
    (rows : list (list Q)) : Prop :=
  ∀ idx bs,
    rows !! idx = Some bs →
    bs = replicate c (Nat.iter idx (calmGrowth params mean)
                        (initialPrincipal params)).


(** The row of the Monte Carlo table made from the balances of one
    year. *)
Definition monteCarloRow (params : CalculationParams) (simulations cy : Z)
    (index : nat) (balances : list Q) : SimulationResult :=
  {| sim_year := (cy + Z.of_nat index)%Z;
     sim_age := (currentAge params + Z.of_nat index)%Z;
     p10 := percentile (sort_numbers balances) simulations 1;
     p50 := percentile (sort_numbers balances) simulations 5;
     p90 := percentile (sort_numbers balances) simulations 9 |}.

(** A record that shows nothing at all. *)
Definition nothingAt (a y : Z) : YearlyResult :=
  {| age := a; year := y;
     totalPrincipal := 0; totalAppreciation := 0; totalDividends := 0;
     totalBalance := 0; totalLiabilities := 0; netWorth := 0;
     yearlyPassiveIncome := 0;
     totalPrincipalReal := 0; totalAppreciationReal := 0;
     totalDividendsReal := 0;
     totalBalanceReal := 0; totalLiabilitiesReal := 0;
     netWorthReal := 0;
     yearlyPassiveIncomeReal := 0 |}.

(** A 30-year-old with 1000 saved, no growth and no contributions, who
    at 31 meets an expense of 100 and a crash of 50 percent. *)
Definition shockParams : CalculationParams :=
  {| currentAge := 30; retirementAge := 65;
     monthlyIncome := 0; targetMonthlyIncome := 0; targetAnnualYield := 0;
     initialPrincipal := 1000;
     monthlyContribution := 0; annualExtraContribution := 0;
     inflationRate := 0;
     mortgage :=
       {| hasMortgage := false; remainingPrincipal := 0;
          annualRate := 0; remainingYears := 0; monthlyPayment := 0;
          reinvestAfterPayoff := false |};
     useManualReturn := true; manualReturnRate := 0; manualDividendYield := 0;
     assets := []; simulatedAssets := []; lastPortfolioUpdate := None |}.

Definition shockEvents : list LifecycleEvent :=
  [ {| startAge := 31; duration := Some 1%Z; etype := ONE_TIME_EXPENSE;
       value := 100; ename := None |};
    {| startAge := 31; duration := Some 1%Z; etype := MARKET_CRASH;
       value := 50; ename := None |} ].

(** Three holdings in HKD worth 1 each: a share of a third. *)
Definition thirdsStore : gmap nat Asset :=
  {[ 1%nat := {| id := "1"; name := "a"; symbol := None; type := Stock;
                 region := Asia; currency := HKD; allocation := 0;
                 quantity := 1; expectedReturn := 8; dividendYield := 1;
                 volatility := 20; currentPrice := 1; weeklyChange := 0 |};
     2%nat := {| id := "2"; name := "b"; symbol := None; type := Bond;
                 region := Asia; currency := HKD; allocation := 0;
                 quantity := 1; expectedReturn := 4; dividendYield := 5;
                 volatility := 4; currentPrice := 1; weeklyChange := 0 |};
     3%nat := {| id := "3"; name := "c"; symbol := None; type := Cash;
                 region := Asia; currency := HKD; allocation := 0;
                 quantity := 1; expectedReturn := 0; dividendYield := 0;
                 volatility := 0; currentPrice := 1; weeklyChange := 0 |} ]}.

(** A parameter object that holds the three of them, with a mortgage,
    and the caller's memory around it: a fourth asset object that the
    parameters do not list. *)
Definition thirdsParams : CalculationParams :=
  {| currentAge := 30; retirementAge := 32;
     monthlyIncome := 30000; targetMonthlyIncome := 20000;
     targetAnnualYield := 4;
     initialPrincipal := 1000;
     monthlyContribution := 100; annualExtraContribution := 0;
     inflationRate := 2;
     mortgage :=
       {| hasMortgage := true; remainingPrincipal := 1200;
          annualRate := 0; remainingYears := 1; monthlyPayment := 0;
          reinvestAfterPayoff := true |};
     useManualReturn := false; manualReturnRate := 0; manualDividendYield := 0;
     assets := [1%nat; 2%nat; 3%nat]; simulatedAssets := [];
     lastPortfolioUpdate := None |}.

Definition thirdsMemory : Memory :=
  {| assetObjects :=
       <[ 4%nat := {| id := "4"; name := "d"; symbol := None; type := Crypto;
                      region := US; currency := USD; allocation := 12;
                      quantity := 2; expectedReturn := 30; dividendYield := 0;
                      volatility := 80; currentPrice := 5;
                      weeklyChange := 0 |} ]> thirdsStore;
     paramObjects := {[ 7%nat := thirdsParams ]} |}.

(** A saver of 30 with 10000 put aside who pays in 1000 a month and 500
    at the end of each year, earns 6 percent appreciation and 3 percent
    yield, and redirects the payment of a small mortgage once it is paid
    off. *)
Definition busyParams : CalculationParams :=
  {| currentAge := 30; retirementAge := 40;
     monthlyIncome := 30000; targetMonthlyIncome := 20000;
     targetAnnualYield := 4;
     initialPrincipal := 10000;
     monthlyContribution := 1000; annualExtraContribution := 500;
     inflationRate := 2;
     mortgage :=
       {| hasMortgage := true; remainingPrincipal := 1200;
          annualRate := 0; remainingYears := 1; monthlyPayment := 0;
          reinvestAfterPayoff := true |};
     useManualReturn := true; manualReturnRate := 6; manualDividendYield := 3;
     assets := []; simulatedAssets := []; lastPortfolioUpdate := None |}.

(** The same saver without any return. *)
Definition thriftParams : CalculationParams :=
  {| currentAge := 30; retirementAge := 40;
     monthlyIncome := 30000; targetMonthlyIncome := 20000;
     targetAnnualYield := 4;
     initialPrincipal := 10000;
     monthlyContribution := 1000; annualExtraContribution := 500;
     inflationRate := 2;
     mortgage :=
       {| hasMortgage := true; remainingPrincipal := 1200;
          annualRate := 0; remainingYears := 1; monthlyPayment := 0;
          reinvestAfterPayoff := true |};
     useManualReturn := true; manualReturnRate := 0; manualDividendYield := 0;
     assets := []; simulatedAssets := []; lastPortfolioUpdate := None |}.

(** Two lean years from 31 (no contributions, returns halved) and a
    retirement brought forward by six years, to 34. *)
Definition leanThenRetired : list LifecycleEvent :=
  leanYearsEvents
  ++ [ {| startAge := 34; duration := Some 1%Z; etype := RETIREMENT_EARLY;
          value := 6; ename := None |} ].

Definition leanScenario : StressTestScenario :=
  {| sid := "lean"; title := "lean years"; description := "lean years";
     events := leanThenRetired;
     customRetirementAge := None; customLifeExpectancy := None |}.

(** An expense and a crash at 31, then the two lean years. *)
Definition shocksThenLean : list LifecycleEvent :=
  shockEvents ++ leanYearsEvents.

(** * Properties *)

(** ** The aggregator and the store *)

Section Aggregator.

Lemma agree_refl h : agree h h.
Proof. by intros l. Qed.

Lemma agree_trans h1 h2 h3 : agree h1 h2 → agree h2 h3 → agree h1 h3.
Proof. intros H12 H23 l. by rewrite H23, H12. Qed.

Lemma agree_sym h1 h2 : agree h1 h2 → agree h2 h1.
Proof. intros H l. by rewrite H. Qed.

Lemma core_writeAllocation total a : core (writeAllocation total a) = core a.
Proof. reflexivity. Qed.

Lemma writeAllocation_core_eq total a b :
  core a = core b →
  writeAllocation total a = writeAllocation total b.
Proof.
  intros E. destruct a, b. unfold core, set_allocation in E. simpl in E.
  injection E as -> -> -> -> -> -> -> -> -> -> -> ->. reflexivity.
Qed.

Lemma writeAllocation_idemp total a :
  writeAllocation total (writeAllocation total a) = writeAllocation total a.
Proof. reflexivity. Qed.

(** Whatever is computed from the core of an asset is the same in two
    stores that agree. *)
Lemma agree_read (g : Asset → Q) h h' l :
  (∀ a, g a = g (core a)) → agree h h' →
  g <$> h' !! l = g <$> h !! l.
Proof.
  intros Hg Hag. specialize (Hag l).
  destruct (h' !! l) as [a'|], (h !! l) as [a|]; simpl in *; try done.
  apply (inj Some) in Hag. by rewrite (Hg a'), (Hg a), Hag.
Qed.

Lemma firstPass_agree h h' acc l :
  agree h h' → firstPass h' acc l = firstPass h acc l.
Proof.
  intros Hag. unfold firstPass.
  pose proof (agree_read hkdValueOf h h' l (fun _ => eq_refl) Hag) as E.
  destruct (h' !! l), (h !! l); simpl in E; try done.
  apply (inj Some) in E. by rewrite E.
Qed.

Lemma sumValueHKD_agree h h' refs :
  agree h h' → sumValueHKD h' refs = sumValueHKD h refs.
Proof.
  intros Hag. unfold sumValueHKD. generalize 0%Q.
  induction refs as [|l refs IH]; intros acc; simpl; [done|].
  by rewrite (firstPass_agree h h'), IH.
Qed.

Lemma weightedStep_agree f h h' total acc l :
  (∀ a, f a = f (core a)) → agree h h' →
  weightedStep f h' total acc l = weightedStep f h total acc l.
Proof.
  intros Hf Hag. unfold weightedStep.
  assert (E : (fun a => f a * (hkdValueOf a / total))%js <$> h' !! l
              = (fun a => f a * (hkdValueOf a / total))%js <$> h !! l).
  { apply agree_read; [|done]. intros a. by rewrite (Hf a). }
  destruct (h' !! l), (h !! l); simpl in E; try done.
  apply (inj Some) in E. by rewrite E.
Qed.

Lemma weightedSum_agree f h h' total refs acc :
  (∀ a, f a = f (core a)) → agree h h' →
  weightedSum f h' total refs acc = weightedSum f h total refs acc.
Proof.
  intros Hf Hag. unfold weightedSum. revert acc.
  induction refs as [|l refs IH]; intros acc; simpl; [done|].
  by rewrite (weightedStep_agree f h h'), IH.
Qed.

(** A write-back leaves every object in place and touches allocations
    only. *)
Lemma writeBack_lookup total refs h l :
  writeBack total refs h !! l
  = if decide (l ∈ refs) then writeAllocation total <$> h !! l else h !! l.
Proof.
  unfold writeBack. revert h.
  induction refs as [|l0 refs IH]; intros h; simpl.
  - destruct (decide (l ∈ [])) as [Hin|_]; [|done].
    by apply elem_of_nil in Hin.
  - rewrite IH.
    destruct (decide (l ∈ l0 :: refs)) as [Hin|Hnin],
             (decide (l ∈ refs)) as [Hin'|Hnin'],
             (decide (l = l0)) as [->|Hne];
      rewrite ?lookup_alter_eq, ?lookup_alter_ne by done; try done.
    + by destruct (h !! l0).
    + apply elem_of_cons in Hin. tauto.
    + exfalso. apply Hnin, elem_of_cons. by right.
    + exfalso. apply Hnin, elem_of_cons. by right.
    + exfalso. apply Hnin, elem_of_cons. by left.
Qed.

Lemma writeBack_agree total refs h : agree h (writeBack total refs h).
Proof.
  intros l. rewrite writeBack_lookup.
  destruct (decide (l ∈ refs)); [|done]. by destruct (h !! l).
Qed.

Lemma writeBack_settled total refs h :
  writeBack total refs (writeBack total refs h) = writeBack total refs h.
Proof.
  apply map_eq; intros l. rewrite !writeBack_lookup.
  destruct (decide (l ∈ refs)); [|done]. by destruct (h !! l).
Qed.

(** The second pass, in closed form. *)
Lemma secondPass_fold total h refs :
  ∀ st, agree h (acc_store st) →
    foldl (secondPass total) st refs
    = {| acc_return := weightedSum expectedReturn h total refs (acc_return st);
         acc_yield := weightedSum dividendYield h total refs (acc_yield st);
         acc_volatility := weightedSum volatility h total refs (acc_volatility st);
         acc_store := writeBack total refs (acc_store st) |}.
Proof.
  induction refs as [|l refs IH]; intros st Hag; simpl.
  - by destruct st.
  - assert (Hst : secondPass total st l
      = {| acc_return := weightedStep expectedReturn h total (acc_return st) l;
           acc_yield := weightedStep dividendYield h total (acc_yield st) l;
           acc_volatility := weightedStep volatility h total (acc_volatility st) l;
           acc_store := alter (writeAllocation total) l (acc_store st) |}).
    { rewrite <- !(weightedStep_agree _ h (acc_store st)) by done.
      unfold secondPass, weightedStep. rewrite alter_alt.
      destruct (acc_store st !! l); [reflexivity | by destruct st]. }
    rewrite Hst, IH; [done|]. simpl.
    apply (agree_trans _ (acc_store st)); [done|].
    apply (writeBack_agree total [l]).
Qed.

Lemma calculatePortfolioStats_closed h refs :
  calculatePortfolioStats h refs = (statsOf h refs, storeAfter h refs).
Proof.
  unfold calculatePortfolioStats, statsOf, storeAfter.
  destruct (Qeq_bool (sumValueHKD h refs) 0); [done|].
  rewrite (secondPass_fold _ h); [done | apply agree_refl].
Qed.

Lemma storeAfter_agree h refs : agree h (storeAfter h refs).
Proof.
  unfold storeAfter. destruct (Qeq_bool _ _);
    [apply agree_refl | apply writeBack_agree].
Qed.

Lemma statsOf_agree h h' refs : agree h h' → statsOf h' refs = statsOf h refs.
Proof.
  intros Hag. unfold statsOf. rewrite (sumValueHKD_agree h h') by done.
  destruct (Qeq_bool _ _); [done|].
  by rewrite !(weightedSum_agree _ h h').
Qed.

(** Once the aggregator has run on [refs], running it again changes
    nothing. *)
Lemma storeAfter_settled h refs :
  storeAfter (storeAfter h refs) refs = storeAfter h refs.
Proof.
  unfold storeAfter at 1.
  rewrite (sumValueHKD_agree h) by apply storeAfter_agree.
  unfold storeAfter. destruct (Qeq_bool _ _); [done|].
  apply writeBack_settled.
Qed.

Lemma calculatePortfolioStats_settled h refs :
  calculatePortfolioStats (storeAfter h refs) refs
  = (statsOf h refs, storeAfter h refs).
Proof.
  rewrite calculatePortfolioStats_closed, storeAfter_settled.
  by rewrite (statsOf_agree h) by apply storeAfter_agree.
Qed.

End Aggregator.

(** ** Rounding *)

Section Rounding.

Local Close Scope js_scope.

Lemma ltb_lt x y : Js.ltb x y = true ↔ x < y.
Proof.
  unfold Js.ltb. rewrite negb_true_iff.
  destruct (Qle_bool y x) eqn:E.
  - apply Qle_bool_iff in E. split; [done | intros; exfalso; lra].
  - split; [intros _ | done]. apply Qnot_le_lt. intros Hle.
    apply Qle_bool_iff in Hle. congruence.
Qed.

Lemma ltb_ge x y : Js.ltb x y = false ↔ y <= x.
Proof.
  unfold Js.ltb. rewrite negb_false_iff. apply Qle_bool_iff.
Qed.

(** The operators of the program compute the exact operations. *)
Lemma add_exact x y : Js.add x y == x + y.
Proof. apply Qred_correct. Qed.

Lemma sub_exact x y : Js.sub x y == x - y.
Proof. apply Qred_correct. Qed.

Lemma mul_exact x y : Js.mul x y == x * y.
Proof. apply Qred_correct. Qed.

Lemma div_exact x y : Js.div x y == x / y.
Proof. apply Qred_correct. Qed.

Lemma Math_round_bounds x :
  x - (1 # 2) < Js.Math_round x ∧ Js.Math_round x <= x + (1 # 2).
Proof.
  unfold Js.Math_round.
  pose proof (Qfloor_le (x + (1 # 2))%Q) as Hle.
  pose proof (Qlt_floor (x + (1 # 2))%Q) as Hlt.
  rewrite inject_Z_plus in Hlt. change (inject_Z 1) with 1 in Hlt.
  split; lra.
Qed.

Lemma Math_round_integer x : ∃ n : Z, Js.Math_round x = inject_Z n.
Proof. by eexists. Qed.

Lemma Math_round_comp x y : x == y → Js.Math_round x = Js.Math_round y.
Proof. intros E. unfold Js.Math_round. by rewrite E. Qed.

(** Rounding a difference and subtracting two roundings are at most a
    unit apart. *)
Lemma round_difference a b :
  Qabs (Js.Math_round (a - b)%Q - (Js.Math_round a - Js.Math_round b))%Q <= 1.
Proof.
  destruct (Math_round_integer (a - b)%Q) as [n Hn].
  destruct (Math_round_integer a) as [na Hna].
  destruct (Math_round_integer b) as [nb Hnb].
  pose proof (Math_round_bounds (a - b)%Q) as [H1 H2].
  pose proof (Math_round_bounds a) as [H3 H4].
  pose proof (Math_round_bounds b) as [H5 H6].
  rewrite Hn, Hna, Hnb in *.
  assert (Hlo : inject_Z (-2) < inject_Z (n - (na - nb))).
  { unfold Z.sub. rewrite !inject_Z_plus, !inject_Z_opp, inject_Z_plus, inject_Z_opp.
    change (inject_Z (-2)) with (-2 # 1). lra. }
  assert (Hhi : inject_Z (n - (na - nb)) < inject_Z 2).
  { unfold Z.sub. rewrite !inject_Z_plus, !inject_Z_opp, inject_Z_plus, inject_Z_opp.
    change (inject_Z 2) with 2. lra. }
  rewrite <- Zlt_Qlt in Hlo, Hhi.
  apply Qabs_Qle_condition.
  assert (Hz : (-1 <= n - (na - nb) <= 1)%Z) by lia.
  destruct Hz as [Hz1 Hz2]. rewrite Zle_Qle in Hz1, Hz2.
  unfold Z.sub in Hz1, Hz2.
  rewrite !inject_Z_plus, !inject_Z_opp, inject_Z_plus, inject_Z_opp in Hz1, Hz2.
  change (inject_Z 1) with 1 in *. change (inject_Z (-1)) with (-1 # 1) in *.
  split; lra.
Qed.

(** [toFixed(1)] moves a number by at most half a tenth. *)
Lemma toFixed1_close x : Qabs (Js.toFixed1 x - x)%Q <= 1 # 20.
Proof.
  unfold Js.toFixed1. apply Qabs_Qle_condition.
  destruct (Qle_bool _ _); [split; lra|].
  pose proof (Qfloor_le (Qabs x * 10 + (1 # 2))%Q) as Hle.
  pose proof (Qlt_floor (Qabs x * 10 + (1 # 2))%Q) as Hlt.
  rewrite inject_Z_plus in Hlt. change (inject_Z 1) with 1 in Hlt.
  set (n := inject_Z (Qfloor (Qabs x * 10 + (1 # 2))%Q)) in *.
  assert (Hdiv : n / 10 == n * (1 # 10)) by (unfold Qdiv; reflexivity).
  destruct (Js.ltb x 0) eqn:E; rewrite Qred_correct, Hdiv.
  - apply ltb_lt in E. rewrite (Qabs_neg x) in Hle, Hlt by lra.
    split; lra.
  - apply ltb_ge in E. rewrite (Qabs_pos x) in Hle, Hlt by lra.
    split; lra.
Qed.

(** Below 1e21 the result has one decimal. *)
Lemma toFixed1_tenths x :
  Qabs x < inject_Z (10 ^ 21) → ∃ n : Z, Js.toFixed1 x == inject_Z n / 10.
Proof.
  intros Hsmall. unfold Js.toFixed1.
  destruct (Qle_bool _ _) eqn:E.
  { apply Qle_bool_iff in E. lra. }
  destruct (Js.ltb x 0).
  - exists (- Qfloor (Qabs x * 10 + (1 # 2))%Q)%Z.
    rewrite Qred_correct, inject_Z_opp. unfold Qdiv. ring.
  - eexists. apply Qred_correct.
Qed.

End Rounding.

(** Replaces the operators of the program by the exact operations in a
    goal about the value of an expression. *)
Ltac exact_arith :=
  rewrite ?add_exact, ?sub_exact, ?mul_exact, ?div_exact.

(** ** Closed forms of the store-passing functions *)

Section ClosedForms.

Lemma calculateCompoundInterest_closed h params evs le cy :
  calculateCompoundInterest h params evs le cy
  = (project (makePlan params evs (statsOf h (assets params)) cy) le,
     storeAfter h (assets params)).
Proof.
  unfold calculateCompoundInterest.
  by rewrite calculatePortfolioStats_closed.
Qed.

Lemma calculateCompoundInterest_settled h params evs le cy :
  calculateCompoundInterest (storeAfter h (assets params)) params evs le cy
  = calculateCompoundInterest h params evs le cy.
Proof.
  unfold calculateCompoundInterest.
  by rewrite calculatePortfolioStats_settled, calculatePortfolioStats_closed.
Qed.

Lemma run_scenarios_closed h params baseline cy scs :
  run_scenarios (storeAfter h (assets params)) params baseline cy scs
  = ((fun sc => outcome sc (scenarioProjection h params cy sc) baseline) <$> scs,
     storeAfter h (assets params)).
Proof.
  induction scs as [|sc scs IH]; simpl; [done|].
  rewrite calculateCompoundInterest_settled.
  unfold scenarioProjection at 1.
  rewrite calculateCompoundInterest_closed. simpl.
  rewrite IH. done.
Qed.

Lemma runStressTests_closed h params cy :
  runStressTests h params cy
  = ((fun sc =>
        outcome sc (scenarioProjection h params cy sc)
                (lastBalance (fst (calculateCompoundInterest h params [] 85 cy))))
       <$> scenarios params,
     storeAfter h (assets params)).
Proof.
  unfold runStressTests. rewrite calculateCompoundInterest_closed.
  by rewrite run_scenarios_closed.
Qed.

Lemma runMonteCarloSimulation_store h params n randn cy :
  snd (runMonteCarloSimulation h params n randn cy)
  = storeAfter h (assets params).
Proof.
  unfold runMonteCarloSimulation.
  by rewrite calculatePortfolioStats_closed.
Qed.

End ClosedForms.

(** ** The aggregator: zero guard and allocation shares *)

Section Allocation.

Lemma foldl_ext_in {A B} (f g : A → B → A) (l : list B) :
  (∀ a b, b ∈ l → f a b = g a b) → ∀ a, foldl f a l = foldl g a l.
Proof.
  induction l as [|b l IH]; intros Hfg a; simpl; [done|].
  rewrite Hfg by (apply elem_of_cons; by left).
  apply IH. intros a' b' Hin. apply Hfg, elem_of_cons. by right.
Qed.

Lemma shares_total h total refs :
  ∀ acc b,
    foldl (shareStep h total) acc refs - acc
    == (foldl (firstPass h) b refs - b) / total * 100.
Proof.
  induction refs as [|l refs IH]; intros acc b; cbn [foldl].
  - unfold Qdiv. ring.
  - unfold shareStep at 2, firstPass at 2. destruct (h !! l) as [a|]; [|apply IH].
    specialize (IH (acc + hkdValueOf a / total * 100)%Q (b + hkdValueOf a)%js).
    pose proof (add_exact b (hkdValueOf a)) as Eb.
    remember (b + hkdValueOf a)%js as b' eqn:Hb'.
    remember (foldl (firstPass h) b' refs) as F eqn:HF.
    rewrite Eb in IH. unfold Qdiv in *. lra.
Qed.

Lemma rounded_shares_close h total refs :
  ∀ acc1 acc2,
    Qabs ((foldl (fun acc l =>
                    match h !! l with
                    | Some a => (acc + allocationOf total a)%Q
                    | None => acc
                    end) acc1 refs - acc1)
          - (foldl (shareStep h total) acc2 refs - acc2))%Q
    <= (1 # 20) * inject_Z (Z.of_nat (length refs)).
Proof.
  induction refs as [|l refs IH]; intros acc1 acc2; cbn [length foldl].
  - change (inject_Z (Z.of_nat 0)) with 0.
    apply Qabs_Qle_condition. split; lra.
  - rewrite Nat2Z.inj_succ. unfold Z.succ. rewrite inject_Z_plus.
    change (inject_Z 1) with 1. unfold shareStep at 2.
    destruct (h !! l) as [a|].
    + specialize (IH (acc1 + allocationOf total a)%Q
                     (acc2 + hkdValueOf a / total * 100)%Q).
      pose proof (toFixed1_close (hkdValueOf a / total * 100)%js) as Hc.
      fold (allocationOf total a) in Hc.
      rewrite mul_exact, div_exact in Hc.
      apply Qabs_Qle_condition in IH, Hc. apply Qabs_Qle_condition.
      destruct IH, Hc. split; lra.
    + specialize (IH acc1 acc2). apply Qabs_Qle_condition in IH.
      apply Qabs_Qle_condition. destruct IH. split; lra.
Qed.

Lemma allocationSum_writeBack h total refs :
  allocationSum (writeBack total refs h) refs
  = foldl (fun acc l =>
             match h !! l with
             | Some a => (acc + allocationOf total a)%Q
             | None => acc
             end) 0 refs.
Proof.
  unfold allocationSum. apply foldl_ext_in. intros acc l Hin.
  unfold allocationStep. rewrite writeBack_lookup, decide_True by done.
  by destruct (h !! l).
Qed.

End Allocation.

(** C7. A holdings list whose total base-currency value is zero (the
    empty list included) makes the aggregator return the all-zero
    statistics, and the store comes back as it was given: the second
    pass is not run and no allocation is written. *)
Theorem C7_zero_total_gives_zero_stats (h : gmap nat Asset) (refs : list nat) :
  sumValueHKD h refs == 0 →
  calculatePortfolioStats h refs
  = ({| weightedReturn := 0; weightedYield := 0;
        weightedVolatility := 0; totalValue := 0 |}, h).
Proof.
  intros Hzero. unfold calculatePortfolioStats.
  by rewrite (Qeq_eq_bool _ _ Hzero).
Qed.

(** C8. With a positive total [V], every holding of the list ends up
    with its percentage share of [V] rounded to one decimal in its
    allocation field: the stored value is within 0.05 of the exact share
    and, below 1e21, a whole number of tenths (which of the two nearest
    tenths is taken at a tie is not fixed here: it depends on the side on
    which the double of the share falls).  The allocations of the list
    add up to 100 within 0.05 per holding. *)
Theorem C8_allocations_sum_to_100 (h : gmap nat Asset) (refs : list nat) :
  let V := sumValueHKD h refs in
  let h' := snd (calculatePortfolioStats h refs) in
  0 < V →
  (∀ l a, l ∈ refs → h !! l = Some a →
     let share := hkdValueOf a / V * 100 in
     ∃ v, h' !! l = Some (set_allocation a v)
          ∧ Qabs (v - share)%Q <= 1 # 20
          ∧ (Qabs share < inject_Z (10 ^ 21) →
             ∃ n : Z, v == inject_Z n / 10))
  ∧ Qabs (allocationSum h' refs - 100)%Q
    <= (1 # 20) * inject_Z (Z.of_nat (length refs)).
Proof.
  intros V h' HV.
  assert (Hh' : h' = writeBack V refs h).
  { unfold h'. rewrite calculatePortfolioStats_closed. simpl.
    unfold storeAfter. fold V.
    destruct (Qeq_bool V 0) eqn:E; [|done].
    apply Qeq_bool_iff in E. lra. }
  split.
  - intros l a Hin Hl share. exists (Js.toFixed1 share). split; [|split].
    + rewrite Hh', writeBack_lookup, decide_True, Hl by done. done.
    + apply toFixed1_close.
    + apply toFixed1_tenths.
  - rewrite Hh', allocationSum_writeBack.
    pose proof (rounded_shares_close h V refs 0 0) as Hclose.
    pose proof (shares_total h V refs 0 0) as Htotal.
    fold (sumValueHKD h refs) in Htotal. fold V in Htotal.
    assert (Hone : ((V - 0) / V * 100)%Q == 100) by (field; lra).
    rewrite Hone in Htotal.
    apply Qabs_Qle_condition in Hclose. apply Qabs_Qle_condition.
    destruct Hclose. split; lra.
Qed.

(** ** The projected sequence *)

Section Projection.

Variable pl : Plan.

Lemma yearly_loop_Forall (P : YearlyResult → Prop) :
  (∀ y e st, P (yearRecord pl y e st)) →
  ∀ n y st, Forall P (yearly_loop pl n y st).
Proof.
  intros HP. induction n as [|n IH]; intros y st; cbn [yearly_loop].
  - constructor.
  - unfold year_step. constructor; [apply HP | apply IH].
Qed.

Lemma yearly_loop_ages n :
  ∀ y st,
    age <$> yearly_loop pl n y st
    = seqZ (currentAge (plan_params pl) + y) (Z.of_nat n).
Proof.
  induction n as [|n IH]; intros y st; cbn [yearly_loop].
  - done.
  - unfold year_step. rewrite fmap_cons, IH.
    rewrite (seqZ_cons _ (Z.of_nat (S n))) by lia.
    cbn [age yearRecord]. f_equal. f_equal; lia.
Qed.

Lemma yearly_loop_length n : ∀ y st, length (yearly_loop pl n y st) = n.
Proof.
  induction n as [|n IH]; intros y st; cbn [yearly_loop]; [done|].
  unfold year_step. cbn [length]. by rewrite IH.
Qed.

Lemma yearRecord_roundedSeparately y e st :
  roundedSeparately (yearRecord pl y e st).
Proof.
  exists (currentBalance st), (mortgageBalance st),
    (Js.Math_pow (1 + inflationRate (plan_params pl) / 100) (- y)%Z).
  by repeat split.
Qed.

Lemma roundedSeparately_withinOne r :
  roundedSeparately r → netWorthWithinOne r.
Proof.
  intros (b & m & d & E1 & E2 & E3 & E4 & E5 & E6).
  unfold netWorthWithinOne. rewrite E1, E2, E3, E4, E5, E6. split.
  - rewrite (Math_round_comp (b - m)%js (b - m)%Q) by apply sub_exact.
    apply round_difference.
  - rewrite (Math_round_comp ((b - m) * d)%js (b * d - m * d)%Q)
      by (exact_arith; ring).
    rewrite (Math_round_comp (b * d)%js (b * d)%Q) by apply mul_exact.
    rewrite (Math_round_comp (m * d)%js (m * d)%Q) by apply mul_exact.
    apply round_difference.
Qed.

Lemma netWorthExact_withinOne r : netWorthExact r → netWorthWithinOne r.
Proof.
  intros [H1 H2]. split; apply Qabs_Qle_condition; split; lra.
Qed.

Lemma firstRecord_exact st : netWorthExact (firstRecord pl st).
Proof. split; apply sub_exact. Qed.

End Projection.

(** C9. With [lifeExpectancy - currentAge <= 0] the simulator returns the
    empty sequence; otherwise it returns
    [lifeExpectancy - currentAge + 1] records whose ages are
    [currentAge, currentAge + 1, ..., lifeExpectancy] in this order. *)
Theorem C9_one_record_per_age (h : gmap nat Asset) (params : CalculationParams)
    (evs : list LifecycleEvent) (lifeExpectancy cy : Z) :
  let res := fst (calculateCompoundInterest h params evs lifeExpectancy cy) in
  let n := (lifeExpectancy - currentAge params)%Z in
  ((n <= 0)%Z → res = [])
  ∧ ((0 < n)%Z →
     Z.of_nat (length res) = (n + 1)%Z
     ∧ age <$> res = seqZ (currentAge params) (n + 1)
     ∧ last (age <$> res) = Some lifeExpectancy).
Proof.
  intros res n. unfold res. rewrite calculateCompoundInterest_closed.
  cbn [fst]. unfold project. cbn [plan_params makePlan]. fold n.
  split; intros Hn.
  - by rewrite (proj2 (Z.leb_le n 0) Hn).
  - rewrite (proj2 (Z.leb_gt n 0) Hn).
    assert (Hages : age <$> firstRecord (makePlan params evs (statsOf h (assets params)) cy)
                       (initialState params)
                    :: yearly_loop (makePlan params evs (statsOf h (assets params)) cy)
                         (Z.to_nat n) 1 (initialState params)
                  = seqZ (currentAge params) (n + 1)).
    { rewrite fmap_cons, yearly_loop_ages. cbn [age firstRecord plan_params makePlan].
      rewrite (seqZ_cons _ (n + 1)) by lia. f_equal. f_equal; lia. }
    split; [|split].
    + cbn [length]. rewrite yearly_loop_length. lia.
    + exact Hages.
    + rewrite Hages. rewrite (seqZ_app _ n 1) by lia.
      change (seqZ (currentAge params + n) 1) with [(currentAge params + n)%Z].
      rewrite last_snoc. f_equal. unfold n. lia.
Qed.

(** C1 (as amended). The record of the starting age satisfies
    [netWorth = totalBalance - totalLiabilities] exactly, nominal and
    real.  Every later record holds the separate roundings of the
    unrounded balance [b], mortgage balance [m] and difference [b - m]
    (and of their products with the discount factor), so its net worth is
    within one unit of [totalBalance - totalLiabilities], nominal and
    real. *)
Theorem C1_net_worth_within_rounding (h : gmap nat Asset)
    (params : CalculationParams) (evs : list LifecycleEvent)
    (lifeExpectancy cy : Z) :
  let res := fst (calculateCompoundInterest h params evs lifeExpectancy cy) in
  (res = []
   ∨ ∃ r0 rest, res = r0 :: rest
       ∧ netWorthExact r0 ∧ Forall roundedSeparately rest)
  ∧ Forall netWorthWithinOne res.
Proof.
  intros res. unfold res. rewrite calculateCompoundInterest_closed. cbn [fst].
  unfold project. destruct (_ <=? 0)%Z; [by split; [left | constructor]|].
  split.
  - right. do 2 eexists. split; [reflexivity|]. split.
    + apply firstRecord_exact.
    + apply yearly_loop_Forall, yearRecord_roundedSeparately.
  - constructor.
    + apply netWorthExact_withinOne, firstRecord_exact.
    + apply yearly_loop_Forall. intros y e st.
      apply roundedSeparately_withinOne, yearRecord_roundedSeparately.
Qed.

Example flatYearOne_projected :
  fst (calculateCompoundInterest ∅ flatMortgageParams [] 31 2025) !! 1%nat
  = Some flatYearOne.
Proof. vm_compute. reflexivity. Qed.

(** C1 (as stated) fails: after one year of [flatMortgageParams] the
    simulator emits [totalBalance = 100000], [totalLiabilities = 50001]
    and [netWorth = 50000], which is not [100000 - 50001]; the real
    fields are the same. *)
Lemma C1_counterexample :
  ¬ (∀ r, r ∈ fst (calculateCompoundInterest ∅ flatMortgageParams [] 31 2025) →
          netWorth r == (totalBalance r - totalLiabilities r)%Q
          ∧ netWorthReal r == (totalBalanceReal r - totalLiabilitiesReal r)%Q).
Proof.
  intros Hall.
  destruct (Hall flatYearOne) as [Hnominal _].
  - apply list_elem_of_lookup. exists 1%nat. apply flatYearOne_projected.
  - vm_compute in Hnominal. discriminate.
Qed.

(** ** Retirement age and life events *)

Section Events.

Lemma event_type_eqb_eq t u : event_type_eqb t u = true ↔ t = u.
Proof. destruct t, u; simpl; split; intros; congruence. Qed.

Lemma find_none_in {A} (f : A → bool) (l : list A) :
  (∀ x, x ∈ l → f x = false) → List.find f l = None.
Proof.
  induction l as [|x l IH]; intros Hf; simpl; [done|].
  rewrite Hf by (apply elem_of_cons; by left).
  apply IH. intros y Hy. apply Hf, elem_of_cons. by right.
Qed.

Lemma find_first {A} (f : A → bool) (pre post : list A) (x : A) :
  (∀ y, y ∈ pre → f y = false) → f x = true →
  List.find f (pre ++ x :: post) = Some x.
Proof.
  induction pre as [|y pre IH]; intros Hpre Hx; simpl.
  - by rewrite Hx.
  - rewrite Hpre by (apply elem_of_cons; by left).
    apply IH; [|done]. intros z Hz. apply Hpre, elem_of_cons. by right.
Qed.

Lemma find_some_split {A} (f : A → bool) (l : list A) (x : A) :
  List.find f l = Some x →
  ∃ pre post, l = pre ++ x :: post
              ∧ (∀ y, y ∈ pre → f y = false) ∧ f x = true.
Proof.
  induction l as [|y l IH]; simpl; [done|].
  destruct (f y) eqn:Hy.
  - intros [= ->]. exists [], l. split; [done|]. split; [|done].
    intros z Hz. by apply elem_of_nil in Hz.
  - intros Hfind. destruct (IH Hfind) as (pre & post & -> & Hpre & Hx).
    exists (y :: pre), post. split; [done|]. split; [|done].
    intros z Hz. apply elem_of_cons in Hz as [->|Hz]; [done | by apply Hpre].
Qed.

Lemma isEarlyRetirement_false e :
  etype e ≠ RETIREMENT_EARLY → isEarlyRetirement e = false.
Proof.
  intros Hne. unfold isEarlyRetirement.
  destruct (event_type_eqb _ _) eqn:E; [|done].
  by apply event_type_eqb_eq in E.
Qed.

End Events.

(** C5. Without an EarlyRetirement event the effective retirement age is
    [params.retirementAge]; with one or more it is [params.retirementAge]
    minus the magnitude of the first of them in list order, whatever its
    [startAge] and [duration]; the plan of the yearly loop holds this one
    age, and in every year whose age has reached it the monthly and the
    annual contribution are zero. *)
Theorem C5_effective_retirement_age (params : CalculationParams)
    (evs : list LifecycleEvent) :
  ((∀ e, e ∈ evs → etype e ≠ RETIREMENT_EARLY) →
   effectiveRetirementAge params evs = inject_Z (retirementAge params))
  ∧ (∀ pre e post,
       evs = pre ++ e :: post →
       (∀ e', e' ∈ pre → etype e' ≠ RETIREMENT_EARLY) →
       etype e = RETIREMENT_EARLY →
       effectiveRetirementAge params evs
       = inject_Z (retirementAge params) - value e)
  ∧ (∀ stats cy y st,
       let pl := makePlan params evs stats cy in
       plan_retirementAge pl = effectiveRetirementAge params evs
       ∧ (effectiveRetirementAge params evs
          <= inject_Z (currentAge params + y) →
          effectiveMonthlyContrib (yearSetup pl y st) = 0
          ∧ effectiveAnnualContrib (yearSetup pl y st) = 0)).
Proof.
  split; [|split].
  - intros Hnone. unfold effectiveRetirementAge.
    rewrite find_none_in; [done|].
    intros e He. by apply isEarlyRetirement_false, Hnone.
  - intros pre e post -> Hpre He. unfold effectiveRetirementAge.
    rewrite (find_first _ pre post e); [done | |].
    + intros e' He'. by apply isEarlyRetirement_false, Hpre.
    + unfold isEarlyRetirement. by apply event_type_eqb_eq.
  - intros stats cy y st pl. split; [done|]. intros Hret.
    unfold yearSetup. cbn [effectiveMonthlyContrib effectiveAnnualContrib].
    cbn [plan_retirementAge plan_params pl makePlan].
    apply Qle_bool_iff in Hret. rewrite Hret.
    by destruct (0 <? _)%nat.
Qed.

(** ** The events of a year, as the specification words them *)

Section YearEvents.


Lemma reduceRates_split l :
  ∀ r1 r2,
    fold_left reduceRates l (r1, r2)
    = (fold_left (fun r e => r * (1 - value e / 100)) l r1,
       fold_left (fun r e => r * (1 - value e / 100)) l r2).
Proof.
  induction l as [|e l IH]; intros r1 r2; simpl; [done|].
  unfold reduceRates at 2. simpl. apply IH.
Qed.

Lemma stopped_filtered a evs :
  (0 <? length (List.filter (hasType CONTRIBUTION_STOP)
                  (List.filter (isActive a) evs)))%nat
  = contributionsStopped a evs.
Proof.
  unfold contributionsStopped.
  induction evs as [|e evs IH]; simpl; [done|].
  destruct (isActive a e); simpl; [|apply IH].
  destruct (hasType CONTRIBUTION_STOP e); simpl; [done | apply IH].
Qed.


End YearEvents.


(** A year with a crash of 50 percent and an expense of 100 on a balance
    of 1000 ends at 400, the expense being listed first: the crash is
    applied before it (450 otherwise), and it is the adjusted balance
    that the year carries on. *)
Example crash_before_expense :
  totalBalance
  <$> fst (calculateCompoundInterest ∅ shockParams shockEvents 32 2025)
  = [1000; 400; 400].
Proof. vm_compute. reflexivity. Qed.

(** ** Stress test outcomes *)

Section Outcomes.

Lemma outcome_in_runStressTests h params cy o :
  o ∈ fst (runStressTests h params cy) →
  ∃ sc, sc ∈ scenarios params
        ∧ o = outcome sc (scenarioProjection h params cy sc)
                (lastBalance (fst (calculateCompoundInterest h params [] 85 cy))).
Proof.
  rewrite runStressTests_closed. cbn [fst].
  intros Hin. apply list_elem_of_fmap in Hin as (sc & -> & Hsc). eauto.
Qed.

Lemma outcome_status sc res baseline :
  let o := outcome sc res baseline in
  let ratio := stressRatio (finalBalance o) baseline in
  let forced := sid sc = "longevity"%string ∧ 0 < finalBalance o in
  let danger := isBankrupt o = true ∨ finalBalance o <= 0 ∨ ratio < 5 # 10 in
  (forced → status o = SAFE)
  ∧ (¬ forced → danger → status o = DANGER)
  ∧ (¬ forced → ¬ danger → ratio < 8 # 10 → status o = WARNING)
  ∧ (¬ forced → ¬ danger → ¬ ratio < 8 # 10 → status o = SAFE).
Proof.
  intros o ratio forced danger.
  unfold forced, danger, ratio, o, outcome, stressRatio.
  cbn [status finalBalance isBankrupt].
  set (final := lastBalance res).
  set (bankrupt := match List.find _ res with Some _ => true | None => false end).
  assert (Hratio : (if Js.ltb 0 baseline then final / baseline else 0)
                   = if Qle_bool baseline 0 then 0 else final / baseline).
  { unfold Js.ltb. by destruct (Qle_bool baseline 0). }
  rewrite Hratio. set (r := if Qle_bool baseline 0 then 0 else final / baseline).
  assert (Hpos : Js.ltb 0 final = true ↔ 0 < final) by apply ltb_lt.
  assert (H5 : Js.ltb r (5 # 10) = true ↔ r < 5 # 10) by apply ltb_lt.
  assert (H8 : Js.ltb r (8 # 10) = true ↔ r < 8 # 10) by apply ltb_lt.
  assert (Hle : Qle_bool final 0 = true ↔ final <= 0) by apply Qle_bool_iff.
  destruct (String.eqb_spec (sid sc) "longevity") as [Hid|Hid];
    destruct (Js.ltb 0 final), bankrupt, (Qle_bool final 0),
             (Js.ltb r (5 # 10)), (Js.ltb r (8 # 10));
    cbn [andb orb];
    repeat split; intros; try reflexivity; exfalso;
    intuition congruence.
Qed.

Lemma outcome_bankrupt sc res baseline :
  let o := outcome sc res baseline in
  (isBankrupt o = true ↔ ∃ r, r ∈ res ∧ totalBalance r < 0)
  ∧ (∀ pre r post,
       res = pre ++ r :: post →
       (∀ r', r' ∈ pre → ¬ totalBalance r' < 0) →
       totalBalance r < 0 →
       bankruptAge o = Some (age r))
  ∧ (isBankrupt o = false → bankruptAge o = None).
Proof.
  intros o. unfold o, outcome. cbn [isBankrupt bankruptAge].
  split; [|split].
  - destruct (List.find _ res) as [r|] eqn:Hfind.
    + split; [intros _ | done].
      apply find_some_split in Hfind as (pre & post & -> & _ & Hr).
      exists r. split; [|by apply ltb_lt].
      apply elem_of_app. right. apply elem_of_cons. by left.
    + split; [done|]. intros (r & Hin & Hneg). exfalso.
      apply list_elem_of_In in Hin.
      pose proof (List.find_none _ _ Hfind r Hin) as Hr. cbv beta in Hr.
      apply ltb_ge in Hr. lra.
  - intros pre r post -> Hpre Hr.
    rewrite (find_first _ pre post r); [done | |].
    + intros r' Hr'. apply ltb_ge. apply Qnot_lt_le. by apply Hpre.
    + by apply ltb_lt.
  - by destruct (List.find _ res).
Qed.

End Outcomes.

(** C3. Every outcome of the stress test runner carries the baseline's
    final balance and is classified from
    [ratio = finalBalance / baselineBalance] (0 when the baseline is not
    positive): the longevity scenario with a positive final balance is
    Safe whatever the ratio; any other outcome is Danger when the run is
    bankrupt or its final balance is not positive or the ratio is below
    0.5, else Warning when the ratio is below 0.8, else Safe. *)
Theorem C3_outcome_classification (h : gmap nat Asset)
    (params : CalculationParams) (cy : Z) :
  Forall
    (fun o =>
       let ratio := stressRatio (finalBalance o) (baselineBalance o) in
       let forced :=
         sid (scenario o) = "longevity"%string ∧ 0 < finalBalance o in
       let danger :=
         isBankrupt o = true ∨ finalBalance o <= 0 ∨ ratio < 5 # 10 in
       baselineBalance o
       = lastBalance (fst (calculateCompoundInterest h params [] 85 cy))
       ∧ (forced → status o = SAFE)
       ∧ (¬ forced → danger → status o = DANGER)
       ∧ (¬ forced → ¬ danger → ratio < 8 # 10 → status o = WARNING)
       ∧ (¬ forced → ¬ danger → ¬ ratio < 8 # 10 → status o = SAFE))
    (fst (runStressTests h params cy)).
Proof.
  apply Forall_forall. intros o Hin.
  apply outcome_in_runStressTests in Hin as (sc & _ & ->).
  split; [done|]. apply outcome_status.
Qed.

(** C4. The outcomes come one per scenario of the catalogue, in order,
    and for each of them: the bankrupt flag is set exactly when some
    record of that scenario's projection has a negative total balance,
    anywhere in the sequence; the bankruptcy age is then the age of the
    first such record; and without bankruptcy there is no such age. *)
Theorem C4_bankrupt_flag_and_age (h : gmap nat Asset)
    (params : CalculationParams) (cy : Z) :
  Forall2
    (fun sc o =>
       let res := scenarioProjection h params cy sc in
       scenario o = sc
       ∧ (isBankrupt o = true ↔ ∃ r, r ∈ res ∧ totalBalance r < 0)
       ∧ (∀ pre r post,
            res = pre ++ r :: post →
            (∀ r', r' ∈ pre → ¬ totalBalance r' < 0) →
            totalBalance r < 0 →
            bankruptAge o = Some (age r))
       ∧ (isBankrupt o = false → bankruptAge o = None))
    (scenarios params) (fst (runStressTests h params cy)).
Proof.
  rewrite runStressTests_closed. cbn [fst].
  apply Forall2_fmap_r, Forall2_same_length_lookup. split; [done|].
  intros i sc sc' Hsc Hsc'. simplify_eq. cbv zeta.
  split; [done|]. apply outcome_bankrupt.
Qed.

(** ** Repeated calls and the caller's assets *)

Section Repetition.

Lemma scenarioProjection_settled h params cy sc :
  scenarioProjection (storeAfter h (assets params)) params cy sc
  = scenarioProjection h params cy sc.
Proof.
  unfold scenarioProjection. by rewrite calculateCompoundInterest_settled.
Qed.

Lemma runStressTests_settled h params cy :
  runStressTests (storeAfter h (assets params)) params cy
  = runStressTests h params cy.
Proof.
  rewrite !runStressTests_closed, storeAfter_settled.
  rewrite calculateCompoundInterest_settled.
  generalize (lastBalance (fst (calculateCompoundInterest h params [] 85 cy))).
  generalize (scenarios params). intros scs baseline.
  apply (f_equal (fun outs => (outs, storeAfter h (assets params)))).
  apply list_fmap_ext. intros i sc _.
  by rewrite scenarioProjection_settled.
Qed.

Lemma storeAfter_frame h refs l :
  l ∉ refs → storeAfter h refs !! l = h !! l.
Proof.
  intros Hl. unfold storeAfter. destruct (Qeq_bool _ _); [done|].
  by rewrite writeBack_lookup, decide_False.
Qed.

Lemma storeAfter_written h refs l a :
  ¬ sumValueHKD h refs == 0 → l ∈ refs → h !! l = Some a →
  storeAfter h refs !! l
  = Some (set_allocation a
            (Js.toFixed1 (hkdValueOf a / sumValueHKD h refs * 100))).
Proof.
  intros Hne Hl Ha. unfold storeAfter.
  destruct (Qeq_bool _ _) eqn:E.
  { by apply Qeq_bool_iff in E. }
  by rewrite writeBack_lookup, decide_True, Ha.
Qed.

Lemma storeAfter_zero h refs :
  sumValueHKD h refs == 0 → storeAfter h refs = h.
Proof.
  intros Hz. unfold storeAfter. by rewrite (Qeq_eq_bool _ _ Hz).
Qed.

End Repetition.

(** C6. Calling the aggregator, the simulator or the stress test runner
    a second time with the same arguments, on the store the first call
    left behind (allocations overwritten), returns the same result and
    leaves the same store; the gap analysis of two portfolios is the same
    whether their statistics are taken before or after aggregator runs
    have written to the store. *)
Theorem C6_repeated_calls_agree :
  (∀ (h : gmap nat Asset) refs,
     calculatePortfolioStats (snd (calculatePortfolioStats h refs)) refs
     = calculatePortfolioStats h refs)
  ∧ (∀ (h : gmap nat Asset) params evs lifeExpectancy cy,
       calculateCompoundInterest
         (snd (calculateCompoundInterest h params evs lifeExpectancy cy))
         params evs lifeExpectancy cy
       = calculateCompoundInterest h params evs lifeExpectancy cy)
  ∧ (∀ (h : gmap nat Asset) params cy,
       runStressTests (snd (runStressTests h params cy)) params cy
       = runStressTests h params cy)
  ∧ (∀ (h : gmap nat Asset) real simulated n,
       let h1 := snd (calculatePortfolioStats h real) in
       let h2 := snd (calculatePortfolioStats h1 simulated) in
       calculateGapAnalysis (fst (calculatePortfolioStats h2 real))
                            (fst (calculatePortfolioStats h2 simulated)) n
       = calculateGapAnalysis (fst (calculatePortfolioStats h real))
                              (fst (calculatePortfolioStats h simulated)) n).
Proof.
  split; [|split; [|split]].
  - intros h refs. rewrite (calculatePortfolioStats_closed h). cbn [snd].
    apply calculatePortfolioStats_settled.
  - intros h params evs le cy.
    rewrite (calculateCompoundInterest_closed h) at 1. cbn [snd].
    apply calculateCompoundInterest_settled.
  - intros h params cy. rewrite (runStressTests_closed h) at 1. cbn [snd].
    apply runStressTests_settled.
  - intros h real simulated n h1 h2.
    assert (Hag : agree h h2).
    { unfold h2, h1. rewrite !calculatePortfolioStats_closed. cbn [snd].
      eapply agree_trans; apply storeAfter_agree. }
    rewrite !calculatePortfolioStats_closed. cbn [fst].
    by rewrite !(statsOf_agree h h2).
Qed.

(** C10 (as stated) fails: on [idleParams] the total value is zero, the
    simulator returns the store as it found it, and the holding keeps its
    allocation of 50 instead of receiving a computed share. *)
Lemma C10_counterexample :
  let h' := snd (calculateCompoundInterest idleStore idleParams [] 85 2025) in
  h' = idleStore
  ∧ (allocation <$> h' !! 1%nat) = Some 50
  ∧ ¬ (∀ l a, l ∈ assets idleParams → idleStore !! l = Some a →
         h' !! l
         = Some (set_allocation a
                   (Js.toFixed1
                      (hkdValueOf a / sumValueHKD idleStore (assets idleParams)
                       * 100)))).
Proof.
  assert (E : snd (calculateCompoundInterest idleStore idleParams [] 85 2025)
              = idleStore).
  { rewrite calculateCompoundInterest_closed. cbn [snd].
    apply storeAfter_zero. reflexivity. }
  cbv zeta. rewrite E. split; [done|]. split; [reflexivity|].
  intros Hall. specialize (Hall 1%nat idleAsset).
  assert (H1 : idleStore !! 1%nat = Some idleAsset) by reflexivity.
  rewrite H1 in Hall.
  assert (Hin : 1%nat ∈ assets idleParams) by (apply elem_of_cons; by left).
  specialize (Hall Hin eq_refl). apply (inj Some) in Hall.
  apply (f_equal allocation) in Hall. vm_compute in Hall. discriminate.
Qed.

(** C10 (as amended). Called on the caller's parameter object, the
    simulator, the Monte Carlo engine (whether it returns or throws) and
    the stress test runner all leave the same memory: the parameter
    objects, mortgages included, are what they were, and the asset
    objects are what one run of the aggregator on [params.assets] leaves.
    When the total value of these assets is not zero, each of them has
    its allocation overwritten with its percentage share rounded to one
    decimal (a whole number of tenths within 0.05 of the share); when it
    is zero, no asset is written.  In both cases an asset object outside
    [params.assets] is untouched and every field other than [allocation]
    of every asset object keeps its value. *)
Theorem C10_only_allocations_written (m : Memory) (p : nat)
    (params : CalculationParams) (evs : list LifecycleEvent)
    (lifeExpectancy cy simulations : Z) (randn : nat → Q) :
  paramObjects m !! p = Some params →
  let h := assetObjects m in
  let V := sumValueHKD h (assets params) in
  let m' :=
    snd (call (fun h params =>
                 calculateCompoundInterest h params evs lifeExpectancy cy)
           m p) in
  let h' := assetObjects m' in
  snd (call (fun h params =>
               runMonteCarloSimulation h params simulations randn cy) m p)
  = m'
  ∧ snd (call (fun h params => runStressTests h params cy) m p) = m'
  ∧ paramObjects m' = paramObjects m
  ∧ h' = snd (calculatePortfolioStats h (assets params))
  ∧ (¬ V == 0 →
     ∀ l a, l ∈ assets params → h !! l = Some a →
       let share := hkdValueOf a / V * 100 in
       ∃ v, h' !! l = Some (set_allocation a v)
            ∧ Qabs (v - share)%Q <= 1 # 20
            ∧ (Qabs share < inject_Z (10 ^ 21) →
               ∃ n : Z, v == inject_Z n / 10))
  ∧ (V == 0 → h' = h)
  ∧ (∀ l, l ∉ assets params → h' !! l = h !! l)
  ∧ (∀ l, (fun a => set_allocation a 0) <$> h' !! l
          = (fun a => set_allocation a 0) <$> h !! l).
Proof.
  intros Hp h V m' h'.
  assert (Em' : m' = {| assetObjects := storeAfter h (assets params);
                        paramObjects := paramObjects m |}).
  { unfold m', call. rewrite Hp, calculateCompoundInterest_closed. done. }
  assert (Eh' : h' = storeAfter h (assets params)) by (unfold h'; by rewrite Em').
  split; [|split; [|split; [|split; [|split; [|split; [|split]]]]]].
  - rewrite Em'. unfold call. rewrite Hp.
    pose proof (runMonteCarloSimulation_store h params simulations randn cy)
      as Hstore.
    fold h. destruct (runMonteCarloSimulation h params simulations randn cy)
      as [r hmc].
    cbn [snd] in Hstore |- *. by rewrite Hstore.
  - rewrite Em'. unfold call. rewrite Hp. fold h.
    by rewrite runStressTests_closed.
  - by rewrite Em'.
  - rewrite Eh'. by rewrite calculatePortfolioStats_closed.
  - intros HV l a Hl Ha share. exists (Js.toFixed1 share). split; [|split].
    + rewrite Eh'. by apply storeAfter_written.
    + apply toFixed1_close.
    + apply toFixed1_tenths.
  - rewrite Eh'. apply storeAfter_zero.
  - intros l Hl. rewrite Eh'. by apply storeAfter_frame.
  - rewrite Eh'. apply storeAfter_agree.
Qed.

(** ** Concrete instances *)

Lemma C7_witness :
  sumValueHKD idleStore [1%nat] == 0
  ∧ calculatePortfolioStats idleStore [1%nat]
    = ({| weightedReturn := 0; weightedYield := 0;
          weightedVolatility := 0; totalValue := 0 |}, idleStore).
Proof.
  split; [reflexivity|].
  apply (C7_zero_total_gives_zero_stats idleStore [1%nat]). reflexivity.
Defined.

Lemma C8_witness :
  0 < sumValueHKD thirdsStore [1%nat; 2%nat; 3%nat]
  ∧ Qabs (allocationSum
            (snd (calculatePortfolioStats thirdsStore [1%nat; 2%nat; 3%nat]))
            [1%nat; 2%nat; 3%nat] - 100)%Q
    <= (1 # 20) * inject_Z (Z.of_nat 3).
Proof.
  split; [reflexivity|].
  apply (C8_allocations_sum_to_100 thirdsStore [1%nat; 2%nat; 3%nat]).
  reflexivity.
Defined.

(** Three equal holdings are written 33.3 each: the allocations add up
    to 99.9, not to 100. *)
Example thirdsStore_allocations :
  (fun l => allocation
            <$> snd (calculatePortfolioStats thirdsStore [1%nat; 2%nat; 3%nat])
                !! l)
  <$> [1%nat; 2%nat; 3%nat]
  = [Some (333 # 10); Some (333 # 10); Some (333 # 10)]
  ∧ allocationSum
      (snd (calculatePortfolioStats thirdsStore [1%nat; 2%nat; 3%nat]))
      [1%nat; 2%nat; 3%nat]
    == 999 # 10.
Proof. split; vm_compute; reflexivity. Qed.

Lemma C10_witness :
  paramObjects
    (snd (call (fun h params => calculateCompoundInterest h params [] 32 2025)
            thirdsMemory 7%nat))
  = paramObjects thirdsMemory
  ∧ snd (call (fun h params => runStressTests h params 2025)
           thirdsMemory 7%nat)
    = snd (call (fun h params => calculateCompoundInterest h params [] 32 2025)
             thirdsMemory 7%nat).
Proof.
  destruct (C10_only_allocations_written thirdsMemory 7%nat thirdsParams
              [] 32 2025 3 (fun _ => 0) eq_refl)
    as (_ & Hstress & Hparams & _).
  split; [exact Hparams | exact Hstress].
Defined.

(** The call writes 33.3 into the three listed assets and leaves the
    fourth with the 12 it had. *)
Example thirdsMemory_after :
  (fun l => allocation
            <$> assetObjects
                  (snd (call (fun h params =>
                                calculateCompoundInterest h params [] 32 2025)
                          thirdsMemory 7%nat)) !! l)
  <$> [1%nat; 2%nat; 3%nat; 4%nat]
  = [Some (333 # 10); Some (333 # 10); Some (333 # 10); Some 12].
Proof. vm_compute. reflexivity. Qed.

Example quarterStore_stats :
  fst (calculatePortfolioStats quarterStore [1%nat; 2%nat])
  = {| weightedReturn := 5; weightedYield := 4;
       weightedVolatility := 8; totalValue := 4 |}.
Proof. vm_compute. reflexivity. Qed.

Example quarterStore_allocations :
  allocation <$> snd (calculatePortfolioStats quarterStore [1%nat; 2%nat]) !! 1%nat
  = Some 25
  ∧ allocation <$> snd (calculatePortfolioStats quarterStore [1%nat; 2%nat]) !! 2%nat
    = Some 75.
Proof. split; vm_compute; reflexivity. Qed.

Lemma C5_witness :
  effectiveRetirementAge idleParams [] = 65
  ∧ effectiveRetirementAge idleParams retireEarlyEvents = 60.
Proof.
  split.
  - apply (C5_effective_retirement_age idleParams []).
    intros e He. by apply elem_of_nil in He.
  - apply (proj1 (proj2 (C5_effective_retirement_age idleParams retireEarlyEvents))
             [ {| startAge := 50; duration := Some 1%Z; etype := ONE_TIME_EXPENSE;
                  value := 1000; ename := None |} ]
             {| startAge := 60; duration := Some 1%Z; etype := RETIREMENT_EARLY;
                value := 5; ename := None |} []).
    + reflexivity.
    + intros e' He'. apply list_elem_of_singleton in He'. by subst.
    + reflexivity.
Defined.

Lemma C9_witness :
  fst (calculateCompoundInterest idleStore idleParams [] 30 2025) = []
  ∧ age <$> fst (calculateCompoundInterest idleStore idleParams [] 33 2025)
    = [30; 31; 32; 33]%Z.
Proof.
  split.
  - apply (C9_one_record_per_age idleStore idleParams [] 30 2025). simpl. lia.
  - apply (C9_one_record_per_age idleStore idleParams [] 33 2025). simpl. lia.
Defined.

(** No contributions, no returns, no inflation, no mortgage: after one
    year the balance is the initial principal. *)
Example zero_growth_keeps_principal :
  totalBalance
  <$> fst (calculateCompoundInterest idleStore
             {| currentAge := 30; retirementAge := 65;
                monthlyIncome := 0; targetMonthlyIncome := 0;
                targetAnnualYield := 0;
                initialPrincipal := 100000;
                monthlyContribution := 0; annualExtraContribution := 0;
                inflationRate := 0;
                mortgage := mortgage idleParams;
                useManualReturn := false; manualReturnRate := 0;
                manualDividendYield := 0;
                assets := [1%nat]; simulatedAssets := [];
                lastPortfolioUpdate := None |} [] 31 2025)
  = [100000; 100000].
Proof. vm_compute. reflexivity. Qed.

(** * Further properties of the engine *)

(** ** The yearly loop as a sequence of states *)

Section YearlyStates.

Variable pl : Plan.

Lemma yearly_loop_app n m :
  ∀ y st,
    yearly_loop pl (n + m) y st
    = yearly_loop pl n y st
      ++ yearly_loop pl m (y + Z.of_nat n) (runYears pl n y st).
Proof.
  induction n as [|n IH]; intros y st.
  - cbn [Nat.add yearly_loop runYears app].
    by replace (y + Z.of_nat 0)%Z with y by lia.
  - cbn [Nat.add yearly_loop runYears].
    destruct (year_step pl y st) as [st' r]. cbn [fst]. rewrite IH. cbn [app].
    by replace (y + Z.of_nat (S n))%Z with (y + 1 + Z.of_nat n)%Z by lia.
Qed.

Lemma yearly_loop_lookup n :
  ∀ k y st,
    (k < n)%nat →
    yearly_loop pl n y st !! k
    = Some (snd (year_step pl (y + Z.of_nat k) (runYears pl k y st))).
Proof.
  induction n as [|n IH]; intros k y st Hk; [lia|].
  cbn [yearly_loop]. destruct (year_step pl y st) as [st' r] eqn:E.
  destruct k as [|k].
  - cbn [lookup list_lookup runYears]. rewrite Z.add_0_r, E. done.
  - cbn [runYears]. rewrite E. cbn [fst].
    change ((r :: yearly_loop pl n (y + 1) st') !! S k)
      with (yearly_loop pl n (y + 1) st' !! k).
    rewrite IH by lia.
    by replace (y + Z.of_nat (S k))%Z with (y + 1 + Z.of_nat k)%Z by lia.
Qed.

(** An invariant of the running state that each year keeps, and what it
    gives for the records. *)
Lemma yearly_loop_invariant (I : Z → SimState → Prop) (P : YearlyResult → Prop) :
  ∀ n y st,
    (∀ k s, (k < n)%nat →
        I (y + Z.of_nat k)%Z s →
        I (y + Z.of_nat k + 1)%Z (fst (year_step pl (y + Z.of_nat k) s))
        ∧ P (snd (year_step pl (y + Z.of_nat k) s))) →
    I y st →
    Forall P (yearly_loop pl n y st).
Proof.
  induction n as [|n IH]; intros y st Hstep Hinit; cbn [yearly_loop].
  - constructor.
  - destruct (Hstep 0%nat st ltac:(lia)) as [Hnext HP].
    { by rewrite Z.add_0_r. }
    rewrite Z.add_0_r in Hnext, HP.
    destruct (year_step pl y st) as [st' r] eqn:E. cbn [fst snd] in *.
    constructor; [done|]. apply IH; [|done].
    intros k s Hk Hs.
    replace (y + 1 + Z.of_nat k)%Z with (y + Z.of_nat (S k))%Z in * by lia.
    apply Hstep; [lia | done].
Qed.

Lemma iter_invariant {A} (J : A → Prop) (f : A → A) n s :
  (∀ s, J s → J (f s)) → J s → J (Nat.iter n f s).
Proof. intros Hf Hs. induction n as [|n IH]; simpl; auto. Qed.

End YearlyStates.

(** ** One month and one year, field by field *)

Section MonthAndYear.

Lemma Math_round_nonneg x : 0 <= x → 0 <= Js.Math_round x.
Proof.
  intros Hx. unfold Js.Math_round.
  rewrite <- (Zle_Qle 0). apply (Qfloor_resp_le 0 (x + (1 # 2))%Q). lra.
Qed.

Lemma Math_round_integral n : Js.Math_round (inject_Z n) = inject_Z n.
Proof.
  unfold Js.Math_round. f_equal.
  pose proof (Qfloor_le (inject_Z n + (1 # 2))%Q) as Hle.
  pose proof (Qlt_floor (inject_Z n + (1 # 2))%Q) as Hlt.
  set (k := Qfloor (inject_Z n + (1 # 2))%Q) in *.
  rewrite inject_Z_plus in Hlt. change (inject_Z 1) with 1 in Hlt.
  assert (H1 : inject_Z k < inject_Z (n + 1)).
  { rewrite inject_Z_plus. change (inject_Z 1) with 1. lra. }
  assert (H2 : inject_Z n < inject_Z (k + 1)).
  { rewrite inject_Z_plus. change (inject_Z 1) with 1. lra. }
  rewrite <- Zlt_Qlt in H1, H2. lia.
Qed.

Lemma Math_round_idempotent x : Js.Math_round (Js.Math_round x) = Js.Math_round x.
Proof. unfold Js.Math_round at 2 3. apply Math_round_integral. Qed.

Lemma Math_round_zero x : x == 0 → Js.Math_round x = 0.
Proof. intros E. by rewrite (Math_round_comp x 0 E). Qed.

(** The mortgage part of a month. *)
Lemma month_step_mortgage m pay rm c ra rd st :
  let st' := month_step m pay rm c ra rd st in
  ((0 < monthsRemainingOnMortgage st)%Z →
   monthsRemainingOnMortgage st' = (monthsRemainingOnMortgage st - 1)%Z
   ∧ mortgageBalance st'
     = if Js.ltb (pay - mortgageBalance st * rm) (mortgageBalance st)
       then mortgageBalance st - (pay - mortgageBalance st * rm)
       else 0)
  ∧ ((monthsRemainingOnMortgage st <= 0)%Z →
     monthsRemainingOnMortgage st' = monthsRemainingOnMortgage st
     ∧ mortgageBalance st' = mortgageBalance st).
Proof.
  intros st'. unfold st', month_step.
  destruct (0 <? monthsRemainingOnMortgage st)%Z eqn:E;
    cbn [monthsRemainingOnMortgage mortgageBalance].
  - apply Z.ltb_lt in E. split; [done | lia].
  - apply Z.ltb_ge in E. split; [lia | done].
Qed.

(** The investment part of a month, in exact arithmetic. *)
Lemma month_step_money m pay rm c ra rd st :
  let st' := month_step m pay rm c ra rd st in
  let input := (c + extraInvest m pay st)%Q in
  let b := (currentBalance st + input)%Q in
  currentBalance st' == b + (b * ra + b * rd)
  ∧ totalContributed st' == totalContributed st + input
  ∧ accAppreciation st' == accAppreciation st + b * ra
  ∧ accDividends st' == accDividends st + b * rd.
Proof.
  intros st' input b. subst st' b input. unfold month_step, extraInvest.
  destruct (0 <? monthsRemainingOnMortgage st)%Z;
    cbn [currentBalance totalContributed accAppreciation accDividends];
    repeat split; exact_arith; reflexivity.
Qed.

Lemma year_step_fst pl y st :
  fst (year_step pl y st)
  = yearEnd (monthlyLoop pl (yearSetup pl y st))
      (effectiveAnnualContrib (yearSetup pl y st)).
Proof. reflexivity. Qed.

Lemma year_step_snd pl y st :
  snd (year_step pl y st)
  = yearRecord pl y (effectiveYield (yearSetup pl y st)) (fst (year_step pl y st)).
Proof. reflexivity. Qed.

Lemma with_balance_same st : with_balance st (currentBalance st) = st.
Proof. by destruct st. Qed.

Lemma yearEnd_mortgageBalance s c :
  mortgageBalance (yearEnd s c) = mortgageBalance s.
Proof. reflexivity. Qed.

Lemma yearEnd_months s c :
  monthsRemainingOnMortgage (yearEnd s c) = monthsRemainingOnMortgage s.
Proof. reflexivity. Qed.

Lemma startState_mortgageBalance pl y st :
  mortgageBalance (startState (yearSetup pl y st)) = mortgageBalance st.
Proof. reflexivity. Qed.

Lemma startState_months pl y st :
  monthsRemainingOnMortgage (startState (yearSetup pl y st))
  = monthsRemainingOnMortgage st.
Proof. reflexivity. Qed.



End MonthAndYear.



(** ** Where the balance comes from *)

Section Accounting.


Lemma hasType_false t e : etype e ≠ t → hasType t e = false.
Proof.
  intros Hne. unfold hasType. destruct (event_type_eqb _ _) eqn:E; [|done].
  by apply event_type_eqb_eq in E.
Qed.

Lemma filter_unselected (sel : LifecycleEvent → bool) a evs :
  (∀ e, e ∈ evs → sel e = false) →
  List.filter sel (List.filter (isActive a) evs) = [].
Proof.
  induction evs as [|e evs IH]; intros Hsel; simpl; [done|].
  assert (IH' : List.filter sel (List.filter (isActive a) evs) = []).
  { apply IH. intros e' He'. apply Hsel, elem_of_cons. by right. }
  destruct (isActive a e); simpl; [|exact IH'].
  rewrite Hsel by (apply elem_of_cons; by left). exact IH'.
Qed.

(** Without crashes and expenses a year starts from the state the
    previous one left. *)
Lemma startState_untouched pl y st :
  noBalanceEvents (plan_events pl) → startState (yearSetup pl y st) = st.
Proof.
  intros Hevs. unfold yearSetup. cbn [startState].
  rewrite (filter_unselected (hasType MARKET_CRASH)).
  2:{ intros e He. apply hasType_false. by destruct (Hevs e He). }
  rewrite (filter_unselected isExpense).
  2:{ intros e He. destruct (Hevs e He) as (_ & H1 & H2).
      unfold isExpense. by rewrite !hasType_false. }
  cbn [fold_left]. apply with_balance_same.
Qed.





End Accounting.



(** ** Rates, contributions and the sign of the balance *)

Section RatesAndContributions.

Lemma monthlyLoop_invariant_at (J : SimState → Prop) pl su :
  (∀ s, J s →
     J (month_step (mortgage (plan_params pl)) (mortgageMonthlyPayment pl)
          (annualRate (mortgage (plan_params pl)) / 100 / 12)
          (effectiveMonthlyContrib su)
          (effectiveAppreciation su / 100 / 12)
          (effectiveYield su / 100 / 12) s)) →
  J (startState su) → J (monthlyLoop pl su).
Proof.
  intros Hmonth Hst. unfold monthlyLoop.
  apply (iter_invariant J); [exact Hmonth | exact Hst].
Qed.

Lemma makePlan_rates h params evs cy :
  annualPriceAppreciation
    (makePlan params evs (statsOf h (assets params)) cy)
  = fst (ratesInForce h params)
  ∧ annualDividendYield
      (makePlan params evs (statsOf h (assets params)) cy)
    = snd (ratesInForce h params).
Proof.
  unfold ratesInForce. rewrite calculatePortfolioStats_closed. done.
Qed.

(** The rates of a year, in exact arithmetic: the plan's rates times the
    factors of the active return reductions. *)
Lemma effective_rates pl y st :
  ∃ f,
    effectiveAppreciation (yearSetup pl y st) == annualPriceAppreciation pl * f
    ∧ effectiveYield (yearSetup pl y st) == annualDividendYield pl * f
    ∧ ((∀ e, e ∈ plan_events pl →
          etype e = RETURN_REDUCTION → value e <= 100) → 0 <= f).
Proof.
  unfold yearSetup. cbn [effectiveAppreciation effectiveYield].
  rewrite reduceRates_split. cbn [fst snd].
  set (l := List.filter (hasType RETURN_REDUCTION) _).
  assert (Hl : ∀ e, e ∈ l →
                 e ∈ plan_events pl ∧ etype e = RETURN_REDUCTION).
  { intros e He. unfold l in He.
    apply list_elem_of_In, List.filter_In in He as [He Ht].
    apply List.filter_In in He as [He _]. split; [by apply list_elem_of_In|].
    unfold hasType in Ht. by apply event_type_eqb_eq in Ht. }
  clearbody l.
  assert (Hgen : ∀ r1 r2, ∃ f,
             fold_left (fun r e => r * (1 - value e / 100)) l r1 == r1 * f
             ∧ fold_left (fun r e => r * (1 - value e / 100)) l r2 == r2 * f
             ∧ ((∀ e, e ∈ l → value e <= 100) → 0 <= f)).
  { clear Hl. induction l as [|e l IH]; intros r1 r2; cbn [fold_left].
    - exists 1. repeat split; [ring | ring | intros; lra].
    - destruct (IH (r1 * (1 - value e / 100)) (r2 * (1 - value e / 100)))
        as (f & Hf1 & Hf2 & Hpos).
      exists ((1 - value e / 100)%Q * f)%Q. repeat split.
      + rewrite Hf1. exact_arith. ring.
      + rewrite Hf2. exact_arith. ring.
      + intros Hle.
        assert (0 <= f).
        { apply Hpos. intros e' He'. apply Hle, elem_of_cons. by right. }
        assert (value e <= 100) by (apply Hle, elem_of_cons; by left).
        apply Qmult_le_0_compat; [|done].
        unfold Qdiv. change (/ 100) with (1 # 100). lra. }
  destruct (Hgen (annualPriceAppreciation pl) (annualDividendYield pl))
    as (f & H1 & H2 & Hpos).
  exists f. repeat split; [exact H1 | exact H2 |].
  intros Hle. apply Hpos. intros e He. destruct (Hl e He). by apply Hle.
Qed.

Lemma contributions_cases pl y st :
  (effectiveMonthlyContrib (yearSetup pl y st) = 0
   ∨ effectiveMonthlyContrib (yearSetup pl y st)
     = monthlyContribution (plan_params pl))
  ∧ (effectiveAnnualContrib (yearSetup pl y st) = 0
     ∨ effectiveAnnualContrib (yearSetup pl y st)
       = annualExtraContribution (plan_params pl)).
Proof.
  unfold yearSetup. cbn [effectiveMonthlyContrib effectiveAnnualContrib].
  destruct (0 <? _)%nat; [by split; left|].
  destruct (Qle_bool _ _); split; by (left + right).
Qed.

Lemma contributions_retired pl y st :
  plan_retirementAge pl <= inject_Z (currentAge (plan_params pl) + y) →
  effectiveMonthlyContrib (yearSetup pl y st) = 0
  ∧ effectiveAnnualContrib (yearSetup pl y st) = 0.
Proof.
  intros Hret. unfold yearSetup.
  cbn [effectiveMonthlyContrib effectiveAnnualContrib].
  apply Qle_bool_iff in Hret. rewrite Hret. by destruct (0 <? _)%nat.
Qed.

Lemma startState_fields pl y st :
  totalContributed (startState (yearSetup pl y st)) = totalContributed st
  ∧ accAppreciation (startState (yearSetup pl y st)) = accAppreciation st
  ∧ accDividends (startState (yearSetup pl y st)) = accDividends st.
Proof. done. Qed.

Lemma yearEnd_fields s c :
  currentBalance (yearEnd s c) == currentBalance s + c
  ∧ totalContributed (yearEnd s c) == totalContributed s + c
  ∧ accAppreciation (yearEnd s c) = accAppreciation s
  ∧ accDividends (yearEnd s c) = accDividends s.
Proof.
  cbn [yearEnd currentBalance totalContributed accAppreciation accDividends].
  repeat split; apply add_exact.
Qed.

Lemma extraInvest_cases m pay s :
  extraInvest m pay s = 0 ∨ extraInvest m pay s = pay.
Proof.
  unfold extraInvest. destruct (0 <? _)%Z; [by left|].
  destruct (_ && _); by (left + right).
Qed.

Lemma extraInvest_off m pay s :
  hasMortgage m && reinvestAfterPayoff m = false → extraInvest m pay s = 0.
Proof.
  intros Hoff. unfold extraInvest. rewrite Hoff. by destruct (0 <? _)%Z.
Qed.

End RatesAndContributions.

(** X8. When the rates in force are zero (for instance with an empty or
    worthless portfolio and no manual override), no record of a
    projection shows any appreciation, dividends or passive income,
    whatever the contributions, the mortgage and the events. *)
Theorem X8_zero_rates_no_gains (h : gmap nat Asset)
    (params : CalculationParams) (evs : list LifecycleEvent)
    (lifeExpectancy cy : Z) :
  fst (ratesInForce h params) == 0 →
  snd (ratesInForce h params) == 0 →
  Forall (fun r => totalAppreciation r == 0 ∧ totalDividends r == 0
                   ∧ yearlyPassiveIncome r == 0)
    (fst (calculateCompoundInterest h params evs lifeExpectancy cy)).
Proof.
  intros Hr Hy. rewrite calculateCompoundInterest_closed. cbn [fst].
  destruct (makePlan_rates h params evs cy) as [Er Ey].
  set (pl := makePlan _ _ _ _) in *. rewrite <- Er in Hr. rewrite <- Ey in Hy.
  unfold project. destruct (_ <=? 0)%Z; [constructor|].
  set (J := fun s => accAppreciation s == 0 ∧ accDividends s == 0).
  assert (Hinit : J (initialState (plan_params pl))) by (split; reflexivity).
  constructor.
  - cbn [firstRecord totalAppreciation totalDividends yearlyPassiveIncome].
    repeat split; try reflexivity. exact_arith. rewrite Hy.
    unfold Qdiv. ring.
  - apply (yearly_loop_invariant pl (fun _ s => J s)); [|exact Hinit].
    intros k s _ [Ha Hd].
    set (y := (1 + Z.of_nat k)%Z).
    destruct (effective_rates pl y s) as (f & Hea & Hey & _).
    rewrite Hr in Hea. rewrite Hy in Hey.
    assert (Hnext : J (fst (year_step pl y s))).
    { rewrite year_step_fst. unfold J at 1.
      destruct (yearEnd_fields (monthlyLoop pl (yearSetup pl y s))
                  (effectiveAnnualContrib (yearSetup pl y s)))
        as (_ & _ & -> & ->).
      apply (monthlyLoop_invariant_at J).
      - intros s' [Ha' Hd'].
        destruct (month_step_money (mortgage (plan_params pl))
                    (mortgageMonthlyPayment pl)
                    (annualRate (mortgage (plan_params pl)) / 100 / 12)
                    (effectiveMonthlyContrib (yearSetup pl y s))
                    (effectiveAppreciation (yearSetup pl y s) / 100 / 12)
                    (effectiveYield (yearSetup pl y s) / 100 / 12) s')
          as (_ & _ & Happ & Hdiv).
        split.
        + rewrite Happ, Ha'. exact_arith. rewrite Hea. unfold Qdiv. ring.
        + rewrite Hdiv, Hd'. exact_arith. rewrite Hey. unfold Qdiv. ring.
      - unfold J. destruct (startState_fields pl y s) as (_ & -> & ->).
        by split. }
    split; [exact Hnext|].
    rewrite year_step_snd. destruct Hnext as [Ha' Hd'].
    cbn [yearRecord totalAppreciation totalDividends yearlyPassiveIncome].
    repeat split.
    + by rewrite (Math_round_zero _ Ha').
    + by rewrite (Math_round_zero _ Hd').
    + rewrite Math_round_zero; [reflexivity|].
      exact_arith. rewrite Hey.
      generalize (currentBalance (fst (year_step pl y s))). intros c.
      unfold Qdiv. ring.
Qed.

Lemma X8_witness :
  Forall (fun r => totalAppreciation r == 0 ∧ totalDividends r == 0
                   ∧ yearlyPassiveIncome r == 0)
    (fst (calculateCompoundInterest ∅ thriftParams shocksThenLean 34 2025)).
Proof.
  apply (X8_zero_rates_no_gains ∅ thriftParams shocksThenLean 34 2025);
    reflexivity.
Defined.

(** The plan of the instance above moves money every year (an expense
    and a crash, a pause, contributions, a redirected mortgage payment)
    and gains nothing. *)
Example thrift_without_gains :
  (fun r => (totalBalance r, totalPrincipal r, totalAppreciation r,
             totalDividends r))
  <$> fst (calculateCompoundInterest ∅ thriftParams shocksThenLean 34 2025)
  = [ (10000, 10000, 0, 0); (4900, 10000, 0, 0); (6100, 11200, 0, 0);
      (19800, 24900, 0, 0); (33500, 38600, 0, 0) ].
Proof. vm_compute. reflexivity. Qed.

(** X7. A plan with a non-negative starting principal, non-negative
    contributions, non-negative rates in force and a non-negative
    redirected mortgage payment never shows a negative balance, and hence
    is never judged bankrupt, as long as its events are contribution
    stops, early retirements and return reductions of at most 100
    percent. *)
Theorem X7_sound_plan_never_bankrupt (h : gmap nat Asset)
    (params : CalculationParams) (evs : list LifecycleEvent)
    (lifeExpectancy cy : Z) :
  0 <= initialPrincipal params →
  0 <= monthlyContribution params →
  0 <= annualExtraContribution params →
  0 <= fst (ratesInForce h params) →
  0 <= snd (ratesInForce h params) →
  0 <= initialMortgagePayment (mortgage params) →
  gentleEvents evs →
  let res := fst (calculateCompoundInterest h params evs lifeExpectancy cy) in
  Forall (fun r => 0 <= totalBalance r) res
  ∧ ∀ sc baseline, isBankrupt (outcome sc res baseline) = false.
Proof.
  intros Hip Hmc Hac Hr Hy Hpay Hevs res.
  assert (Hall : Forall (fun r => 0 <= totalBalance r) res).
  { unfold res. rewrite calculateCompoundInterest_closed. cbn [fst].
    destruct (makePlan_rates h params evs cy) as [Er Ey].
    set (pl := makePlan _ _ _ _) in *.
    rewrite <- Er in Hr. rewrite <- Ey in Hy.
    assert (Hnb : noBalanceEvents (plan_events pl)).
    { intros e He. destruct (Hevs e He) as [E|[E|[E _]]];
        rewrite E; repeat split; discriminate. }
    assert (Hred : ∀ e, e ∈ plan_events pl →
                     etype e = RETURN_REDUCTION → value e <= 100).
    { intros e He Ht. destruct (Hevs e He) as [E|[E|[_ Hv]]];
        [congruence | congruence | exact Hv]. }
    unfold project. destruct (_ <=? 0)%Z; [constructor|].
    set (J := fun s => 0 <= currentBalance s).
    assert (Hinit : J (initialState (plan_params pl))) by exact Hip.
    constructor; [exact Hinit|].
    apply (yearly_loop_invariant pl (fun _ s => J s)); [|exact Hinit].
    intros k s _ Hs. set (y := (1 + Z.of_nat k)%Z).
    destruct (effective_rates pl y s) as (f & Hea & Hey & Hf).
    specialize (Hf Hred).
    destruct (contributions_cases pl y s) as [Hcm Hca].
    assert (Hcm' : 0 <= effectiveMonthlyContrib (yearSetup pl y s)).
    { destruct Hcm as [->| ->]; [lra | exact Hmc]. }
    assert (Hca' : 0 <= effectiveAnnualContrib (yearSetup pl y s)).
    { destruct Hca as [->| ->]; [lra | exact Hac]. }
    assert (Hnext : J (fst (year_step pl y s))).
    { rewrite year_step_fst. unfold J at 1.
      destruct (yearEnd_fields (monthlyLoop pl (yearSetup pl y s))
                  (effectiveAnnualContrib (yearSetup pl y s))) as (-> & _).
      assert (Hloop : J (monthlyLoop pl (yearSetup pl y s))).
      { apply (monthlyLoop_invariant_at J).
        - intros s' Hs'. unfold J.
          destruct (month_step_money (mortgage (plan_params pl))
                      (mortgageMonthlyPayment pl)
                      (annualRate (mortgage (plan_params pl)) / 100 / 12)
                      (effectiveMonthlyContrib (yearSetup pl y s))
                      (effectiveAppreciation (yearSetup pl y s) / 100 / 12)
                      (effectiveYield (yearSetup pl y s) / 100 / 12) s')
            as (-> & _).
          assert (Hex : 0 <= extraInvest (mortgage (plan_params pl))
                               (mortgageMonthlyPayment pl) s').
          { destruct (extraInvest_cases (mortgage (plan_params pl))
                        (mortgageMonthlyPayment pl) s') as [->| ->];
              [lra | exact Hpay]. }
          set (b := (currentBalance s'
                     + (effectiveMonthlyContrib (yearSetup pl y s)
                        + extraInvest (mortgage (plan_params pl))
                            (mortgageMonthlyPayment pl) s'))%Q).
          assert (Hb : 0 <= b) by (unfold b, J in *; lra).
          assert (Hra : 0 <= (effectiveAppreciation (yearSetup pl y s) / 100 / 12)%js).
          { exact_arith. rewrite Hea. unfold Qdiv.
            change (/ 100) with (1 # 100). change (/ 12) with (1 # 12).
            assert (0 <= annualPriceAppreciation pl * f)
              by (by apply Qmult_le_0_compat).
            lra. }
          assert (Hrd : 0 <= (effectiveYield (yearSetup pl y s) / 100 / 12)%js).
          { exact_arith. rewrite Hey. unfold Qdiv.
            change (/ 100) with (1 # 100). change (/ 12) with (1 # 12).
            assert (0 <= annualDividendYield pl * f)
              by (by apply Qmult_le_0_compat).
            lra. }
          pose proof (Qmult_le_0_compat _ _ Hb Hra).
          pose proof (Qmult_le_0_compat _ _ Hb Hrd).
          lra.
        - unfold J. by rewrite startState_untouched. }
      unfold J in Hloop. lra. }
    split; [exact Hnext|].
    rewrite year_step_snd. cbn [yearRecord totalBalance].
    by apply Math_round_nonneg. }
  split; [exact Hall|].
  intros sc baseline. unfold outcome. cbn [isBankrupt].
  destruct (List.find _ res) as [r|] eqn:Hfind; [|done].
  apply List.find_some in Hfind as [Hin Hneg]. apply ltb_lt in Hneg.
  apply list_elem_of_In in Hin.
  pose proof (proj1 (Forall_forall _ _) Hall r Hin) as Hpos.
  cbv beta in Hpos. lra.
Qed.

Lemma X7_witness :
  Forall (fun r => 0 <= totalBalance r)
    (fst (calculateCompoundInterest ∅ busyParams leanThenRetired 35 2025))
  ∧ isBankrupt
      (outcome leanScenario
         (fst (calculateCompoundInterest ∅ busyParams leanThenRetired 35 2025))
         0)
    = false.
Proof.
  destruct (X7_sound_plan_never_bankrupt ∅ busyParams leanThenRetired 35 2025)
    as [Hbalance Hsolvent]; try (vm_compute; discriminate).
  - intros e He. repeat (apply elem_of_cons in He as [->|He]).
    + by left.
    + right. right. split; [done | vm_compute; discriminate].
    + right. by left.
    + by apply elem_of_nil in He.
  - split; [exact Hbalance | apply Hsolvent].
Defined.

(** The plan of the instance above: two lean years, a year of full
    contributions, then retirement. *)
Example busy_balances :
  totalBalance
  <$> fst (calculateCompoundInterest ∅ busyParams leanThenRetired 35 2025)
  = [10000; 10459; 12170; 27673; 31529; 35746].
Proof. vm_compute. reflexivity. Qed.

(** X4. Projecting to a later life expectancy only appends records: the
    projection to an earlier age is an initial segment of it. *)
Theorem X4_longer_horizon_extends (h : gmap nat Asset)
    (params : CalculationParams) (evs : list LifecycleEvent)
    (early late cy : Z) :
  (early <= late)%Z →
  fst (calculateCompoundInterest h params evs early cy)
  `prefix_of` fst (calculateCompoundInterest h params evs late cy).
Proof.
  intros Hle. rewrite !calculateCompoundInterest_closed. cbn [fst].
  set (pl := makePlan _ _ _ _). unfold project.
  destruct (early - currentAge (plan_params pl) <=? 0)%Z eqn:E1;
    [apply prefix_nil|].
  apply Z.leb_gt in E1.
  destruct (late - currentAge (plan_params pl) <=? 0)%Z eqn:E2;
    [apply Z.leb_le in E2; lia|].
  replace (Z.to_nat (late - currentAge (plan_params pl)))
    with (Z.to_nat (early - currentAge (plan_params pl))
          + Z.to_nat (late - early))%nat by lia.
  rewrite yearly_loop_app, app_comm_cons. by apply prefix_app_r.
Qed.

Lemma X4_witness :
  fst (calculateCompoundInterest ∅ flatMortgageParams [] 31 2025)
  `prefix_of` fst (calculateCompoundInterest ∅ flatMortgageParams [] 33 2025).
Proof.
  apply (X4_longer_horizon_extends ∅ flatMortgageParams [] 31 33 2025). lia.
Defined.

(** ** Years that change nothing *)

Section QuietYears.

Lemma runYears_S pl k :
  ∀ y st,
    runYears pl (S k) y st
    = fst (year_step pl (y + Z.of_nat k) (runYears pl k y st)).
Proof.
  induction k as [|k IH]; intros y st.
  - cbn [runYears]. by replace (y + Z.of_nat 0)%Z with y by lia.
  - change (runYears pl (S (S k)) y st)
      with (runYears pl (S k) (y + 1) (fst (year_step pl y st))).
    rewrite IH.
    change (runYears pl (S k) y st)
      with (runYears pl k (y + 1) (fst (year_step pl y st))).
    by replace (y + 1 + Z.of_nat k)%Z with (y + Z.of_nat (S k))%Z by lia.
Qed.

(** In a year of retirement, with no mortgage payment to redirect,
    nothing is paid in. *)
Lemma year_step_contributed_retired pl y s :
  hasMortgage (mortgage (plan_params pl))
  && reinvestAfterPayoff (mortgage (plan_params pl)) = false →
  plan_retirementAge pl <= inject_Z (currentAge (plan_params pl) + y) →
  totalContributed (fst (year_step pl y s)) == totalContributed s.
Proof.
  intros Hoff Hret. rewrite year_step_fst.
  destruct (contributions_retired pl y s Hret) as [Hcm Hca].
  destruct (yearEnd_fields (monthlyLoop pl (yearSetup pl y s))
              (effectiveAnnualContrib (yearSetup pl y s))) as (_ & -> & _).
  rewrite Hca.
  assert (Hloop : totalContributed (monthlyLoop pl (yearSetup pl y s))
                  == totalContributed s).
  { apply (monthlyLoop_invariant_at
             (fun s' => totalContributed s' == totalContributed s)).
    - intros s' Hs'.
      destruct (month_step_money (mortgage (plan_params pl))
                  (mortgageMonthlyPayment pl)
                  (annualRate (mortgage (plan_params pl)) / 100 / 12)
                  (effectiveMonthlyContrib (yearSetup pl y s))
                  (effectiveAppreciation (yearSetup pl y s) / 100 / 12)
                  (effectiveYield (yearSetup pl y s) / 100 / 12) s')
        as (_ & -> & _).
      rewrite Hcm, extraInvest_off by done. lra.
    - by destruct (startState_fields pl y s) as (-> & _). }
  lra.
Qed.

Lemma monthlyLoop_same pl1 pl2 su :
  plan_params pl1 = plan_params pl2 →
  mortgageMonthlyPayment pl1 = mortgageMonthlyPayment pl2 →
  monthlyLoop pl1 su = monthlyLoop pl2 su.
Proof. intros E1 E2. unfold monthlyLoop. by rewrite E1, E2. Qed.

Lemma yearRecord_same pl1 pl2 y e s :
  plan_params pl1 = plan_params pl2 →
  plan_currentYear pl1 = plan_currentYear pl2 →
  yearRecord pl1 y e s = yearRecord pl2 y e s.
Proof. intros E1 E2. unfold yearRecord. by rewrite E1, E2. Qed.

Lemma yearSetup_same pl1 pl2 y s :
  plan_params pl1 = plan_params pl2 →
  plan_retirementAge pl1 = plan_retirementAge pl2 →
  annualPriceAppreciation pl1 = annualPriceAppreciation pl2 →
  annualDividendYield pl1 = annualDividendYield pl2 →
  List.filter (isActive (currentAge (plan_params pl2) + y)) (plan_events pl1)
  = List.filter (isActive (currentAge (plan_params pl2) + y)) (plan_events pl2) →
  yearSetup pl1 y s = yearSetup pl2 y s.
Proof.
  intros E1 E2 E3 E4 E5. unfold yearSetup. by rewrite E1, E2, E3, E4, E5.
Qed.

Lemma year_step_same pl1 pl2 y s :
  plan_params pl1 = plan_params pl2 →
  plan_retirementAge pl1 = plan_retirementAge pl2 →
  annualPriceAppreciation pl1 = annualPriceAppreciation pl2 →
  annualDividendYield pl1 = annualDividendYield pl2 →
  mortgageMonthlyPayment pl1 = mortgageMonthlyPayment pl2 →
  plan_currentYear pl1 = plan_currentYear pl2 →
  List.filter (isActive (currentAge (plan_params pl2) + y)) (plan_events pl1)
  = List.filter (isActive (currentAge (plan_params pl2) + y)) (plan_events pl2) →
  year_step pl1 y s = year_step pl2 y s.
Proof.
  intros E1 E2 E3 E4 E5 E6 E7.
  apply injective_projections.
  - rewrite !year_step_fst.
    rewrite (yearSetup_same pl1 pl2) by done.
    by rewrite (monthlyLoop_same pl1 pl2).
  - rewrite !year_step_snd.
    assert (Hfst : fst (year_step pl1 y s) = fst (year_step pl2 y s)).
    { rewrite !year_step_fst.
      rewrite (yearSetup_same pl1 pl2) by done.
      by rewrite (monthlyLoop_same pl1 pl2). }
    rewrite Hfst, (yearSetup_same pl1 pl2) by done.
    by apply yearRecord_same.
Qed.

Lemma yearly_loop_same pl1 pl2 n :
  ∀ y st,
    (∀ k s, (k < n)%nat →
       year_step pl1 (y + Z.of_nat k) s = year_step pl2 (y + Z.of_nat k) s) →
    yearly_loop pl1 n y st = yearly_loop pl2 n y st.
Proof.
  induction n as [|n IH]; intros y st Hsame; cbn [yearly_loop]; [done|].
  pose proof (Hsame 0%nat st ltac:(lia)) as H0.
  replace (y + Z.of_nat 0)%Z with y in H0 by lia. rewrite H0.
  destruct (year_step pl2 y st) as [st' r]. f_equal.
  apply IH. intros k s Hk.
  replace (y + 1 + Z.of_nat k)%Z with (y + Z.of_nat (S k))%Z by lia.
  apply Hsame. lia.
Qed.

Lemma filter_dormant evs from upto a :
  dormantEvents evs from upto → (from < a <= upto)%Z →
  List.filter (isActive a) evs = [].
Proof.
  intros Hd Ha. induction evs as [|e evs IH]; simpl; [done|].
  destruct (Hd e) as [_ He]; [apply elem_of_cons; by left|].
  rewrite (He a Ha). apply IH.
  intros e' He'. apply Hd, elem_of_cons. by right.
Qed.

Lemma effectiveRetirementAge_dormant params evs from upto :
  dormantEvents evs from upto →
  effectiveRetirementAge params evs = effectiveRetirementAge params [].
Proof.
  intros Hd. unfold effectiveRetirementAge. rewrite find_none_in; [done|].
  intros e He. apply isEarlyRetirement_false. by destruct (Hd e He).
Qed.

(** A projection under dormant events is the projection without events. *)
Lemma project_dormant params evs stats cy lifeExpectancy :
  dormantEvents evs (currentAge params) lifeExpectancy →
  project (makePlan params evs stats cy) lifeExpectancy
  = project (makePlan params [] stats cy) lifeExpectancy.
Proof.
  intros Hd. unfold project. cbn [plan_params makePlan].
  destruct (_ <=? 0)%Z eqn:E; [done|]. apply Z.leb_gt in E.
  f_equal. apply yearly_loop_same. intros k s Hk.
  apply year_step_same; try done.
  - cbn [plan_retirementAge makePlan].
    by apply (effectiveRetirementAge_dormant _ _ _ _ Hd).
  - cbn [plan_events plan_params makePlan List.filter].
    apply (filter_dormant _ _ _ _ Hd). lia.
Qed.

End QuietYears.

(** X6. When no mortgage payment is redirected into the investments,
    the principal paid in stops growing at the effective retirement age:
    a record whose age has reached it shows the total principal of the
    record before it. *)
Theorem X6_principal_frozen_after_retirement (h : gmap nat Asset)
    (params : CalculationParams) (evs : list LifecycleEvent)
    (lifeExpectancy cy : Z) (i : nat) (r r' : YearlyResult) :
  let res := fst (calculateCompoundInterest h params evs lifeExpectancy cy) in
  hasMortgage (mortgage params) && reinvestAfterPayoff (mortgage params) = false →
  res !! i = Some r →
  res !! S i = Some r' →
  effectiveRetirementAge params evs <= inject_Z (age r') →
  totalPrincipal r' = Js.Math_round (totalPrincipal r).
Proof.
  intros res Hoff Hr Hr' Hret. unfold res in *.
  rewrite calculateCompoundInterest_closed in Hr, Hr'. cbn [fst] in Hr, Hr'.
  set (pl := makePlan params evs (statsOf h (assets params)) cy) in *.
  unfold project in Hr, Hr'.
  destruct (_ <=? 0)%Z; [done|].
  set (st0 := initialState (plan_params pl)) in *.
  set (n := Z.to_nat _) in *.
  change ((firstRecord pl st0 :: yearly_loop pl n 1 st0) !! S i)
    with (yearly_loop pl n 1 st0 !! i) in Hr'.
  assert (Hi : (i < n)%nat).
  { apply lookup_lt_Some in Hr'. by rewrite yearly_loop_length in Hr'. }
  rewrite yearly_loop_lookup in Hr' by done. apply (inj Some) in Hr' as <-.
  rewrite year_step_snd in Hret |- *.
  cbn [yearRecord age totalPrincipal] in Hret |- *.
  rewrite (Math_round_comp _ (totalContributed (runYears pl i 1 st0))).
  2:{ by apply year_step_contributed_retired. }
  destruct i as [|j].
  - apply (inj Some) in Hr as <-. done.
  - change ((firstRecord pl st0 :: yearly_loop pl n 1 st0) !! S j)
      with (yearly_loop pl n 1 st0 !! j) in Hr.
    rewrite yearly_loop_lookup in Hr by lia. apply (inj Some) in Hr as <-.
    rewrite year_step_snd. cbn [yearRecord totalPrincipal].
    rewrite <- runYears_S. by rewrite Math_round_idempotent.
Qed.

Lemma X6_witness :
  totalPrincipal (saverAt 32 2027)
  = Js.Math_round (totalPrincipal (saverAt 31 2026)).
Proof.
  apply (X6_principal_frozen_after_retirement ∅ saverParams [] 34 2025 1
           (saverAt 31 2026) (saverAt 32 2027)).
  - reflexivity.
  - vm_compute. reflexivity.
  - vm_compute. reflexivity.
  - vm_compute. discriminate.
Defined.

(** X5. Events that are not early retirements and are not active at any
    simulated age (the ages after the current one up to the life
    expectancy) change nothing: the projection is the one without
    events. *)
Theorem X5_dormant_events_change_nothing (h : gmap nat Asset)
    (params : CalculationParams) (evs : list LifecycleEvent)
    (lifeExpectancy cy : Z) :
  dormantEvents evs (currentAge params) lifeExpectancy →
  fst (calculateCompoundInterest h params evs lifeExpectancy cy)
  = fst (calculateCompoundInterest h params [] lifeExpectancy cy).
Proof.
  intros Hd. rewrite !calculateCompoundInterest_closed. cbn [fst].
  by apply project_dormant.
Qed.

Lemma X5_witness :
  fst (calculateCompoundInterest ∅ elderParams illnessAt50 85 2025)
  = fst (calculateCompoundInterest ∅ elderParams [] 85 2025).
Proof.
  apply (X5_dormant_events_change_nothing ∅ elderParams illnessAt50 85 2025).
  intros e He. apply list_elem_of_singleton in He as ->.
  split; [discriminate|].
  intros a Ha. unfold isActive. cbn [startAge duration Js.or_elseZ Z.eqb].
  apply andb_false_iff. right. apply Z.ltb_ge.
  change (currentAge elderParams) with 60%Z in Ha. lia.
Defined.

(** ** Scenarios that cannot bite *)

Section DormantScenarios.

Lemma Qred_self_difference x : Js.sub x x = 0.
Proof.
  unfold Js.sub. change 0 with (Qred 0). apply Qred_complete. ring.
Qed.

Lemma outcome_dormant h params cy sc :
  customLifeExpectancy sc = None →
  dormantEvents (events sc) (currentAge params) 85 →
  let baseline :=
    lastBalance (fst (calculateCompoundInterest h params [] 85 cy)) in
  let o := outcome sc (scenarioProjection h params cy sc) baseline in
  finalBalance o = baselineBalance o ∧ difference o = 0.
Proof.
  intros Hle Hd baseline o. unfold o, outcome.
  cbn [finalBalance baselineBalance difference].
  assert (E : lastBalance (scenarioProjection h params cy sc) = baseline).
  { unfold baseline, scenarioProjection. rewrite Hle.
    cbn [Js.or_elseZ]. rewrite !calculateCompoundInterest_closed. cbn [fst].
    by rewrite project_dormant. }
  rewrite E. split; [done | apply Qred_self_difference].
Qed.

End DormantScenarios.

(** X9. For a user aged 50 or more, the unemployment scenario (set at
    ages 40 and 41) and the illness scenario (set at age 50) lie in the
    past: their outcomes carry the baseline's final balance and a
    difference of zero. *)
Theorem X9_past_scenarios_equal_baseline (h : gmap nat Asset)
    (params : CalculationParams) (cy : Z) :
  (50 <= currentAge params)%Z →
  Forall
    (fun o =>
       sid (scenario o) = "unemployment"%string
       ∨ sid (scenario o) = "illness"%string →
       finalBalance o = baselineBalance o ∧ difference o = 0)
    (fst (runStressTests h params cy)).
Proof.
  intros Hage. apply Forall_forall. intros o Hin.
  apply outcome_in_runStressTests in Hin as (sc & Hsc & ->).
  cbn [scenario outcome]. intros Hid.
  apply outcome_dormant.
  - unfold scenarios in Hsc.
    repeat (apply elem_of_cons in Hsc as [->|Hsc]); try reflexivity;
      try (by apply elem_of_nil in Hsc);
      cbn [sid] in Hid; destruct Hid; discriminate.
  - unfold scenarios in Hsc.
    repeat (apply elem_of_cons in Hsc as [->|Hsc]);
      try (by apply elem_of_nil in Hsc);
      cbn [sid] in Hid; try (destruct Hid; discriminate);
      cbn [events]; intros e He;
      repeat (apply elem_of_cons in He as [->|He]);
      try (by apply elem_of_nil in He);
      (split; [discriminate|]);
      intros a Ha; unfold isActive;
      cbn [startAge duration Js.or_elseZ Z.eqb];
      apply andb_false_iff; right; apply Z.ltb_ge; lia.
Qed.

Lemma X9_witness :
  Forall
    (fun o =>
       sid (scenario o) = "unemployment"%string
       ∨ sid (scenario o) = "illness"%string →
       finalBalance o = baselineBalance o ∧ difference o = 0)
    (fst (runStressTests ∅ elderParams 2025)).
Proof.
  apply (X9_past_scenarios_equal_baseline ∅ elderParams 2025).
  vm_compute. discriminate.
Defined.

(** X10. The market crash scenario is set at the retirement age itself.
    For a user who has already reached that age, or whose retirement age
    lies beyond 85, the crash never happens in the projection: the
    outcome carries the baseline's final balance and a difference of
    zero. *)
Theorem X10_crash_outside_horizon_equals_baseline (h : gmap nat Asset)
    (params : CalculationParams) (cy : Z) :
  (retirementAge params <= currentAge params ∨ 85 < retirementAge params)%Z →
  Forall
    (fun o =>
       sid (scenario o) = "crash"%string →
       finalBalance o = baselineBalance o ∧ difference o = 0)
    (fst (runStressTests h params cy)).
Proof.
  intros Hage. apply Forall_forall. intros o Hin.
  apply outcome_in_runStressTests in Hin as (sc & Hsc & ->).
  cbn [scenario outcome]. intros Hid.
  apply outcome_dormant.
  - unfold scenarios in Hsc.
    repeat (apply elem_of_cons in Hsc as [->|Hsc]); try reflexivity;
      try (by apply elem_of_nil in Hsc);
      cbn [sid] in Hid; discriminate.
  - unfold scenarios in Hsc.
    repeat (apply elem_of_cons in Hsc as [->|Hsc]);
      try (by apply elem_of_nil in Hsc);
      cbn [sid] in Hid; try discriminate;
      cbn [events]; intros e He;
      repeat (apply elem_of_cons in He as [->|He]);
      try (by apply elem_of_nil in He);
      (split; [discriminate|]);
      intros a Ha; unfold isActive;
      cbn [startAge duration Js.or_elseZ Z.eqb];
      apply andb_false_iff; lia.
Qed.

Lemma X10_witness :
  Forall
    (fun o =>
       sid (scenario o) = "crash"%string →
       finalBalance o = baselineBalance o ∧ difference o = 0)
    (fst (runStressTests ∅ elderParams 2025)).
Proof.
  apply (X10_crash_outside_horizon_equals_baseline ∅ elderParams 2025).
  left. vm_compute. discriminate.
Defined.

(** ** Paying a mortgage off *)

Section Amortisation.








(** The number of months left never grows, and a month with months left
    takes one off. *)
Lemma months_after n m pay rm c ra rd s :
  (monthsRemainingOnMortgage (Nat.iter n (month_step m pay rm c ra rd) s)
   <= Z.max 0 (monthsRemainingOnMortgage s - Z.of_nat n))%Z
  ∧ (monthsRemainingOnMortgage s <= 0 →
     mortgageBalance (Nat.iter n (month_step m pay rm c ra rd) s)
     = mortgageBalance s)%Z.
Proof.
  induction n as [|n [IH1 IH2]]; [simpl; split; [lia | done]|].
  change (Nat.iter (S n) (month_step m pay rm c ra rd) s)
    with (month_step m pay rm c ra rd
            (Nat.iter n (month_step m pay rm c ra rd) s)).
  set (s' := Nat.iter n (month_step m pay rm c ra rd) s) in *.
  destruct (month_step_mortgage m pay rm c ra rd s') as [Hpaying Hdone].
  destruct (Z.lt_ge_cases 0 (monthsRemainingOnMortgage s')) as [Hm|Hm].
  - destruct (Hpaying Hm) as [-> _]. split; [lia|]. intros Hs. lia.
  - destruct (Hdone Hm) as [-> ->]. split; [lia|]. exact IH2.
Qed.

Lemma monthlyLoop_months pl su :
  (monthsRemainingOnMortgage (monthlyLoop pl su)
   <= Z.max 0 (monthsRemainingOnMortgage (startState su) - 12))%Z
  ∧ (monthsRemainingOnMortgage (startState su) <= 0 →
     mortgageBalance (monthlyLoop pl su) = mortgageBalance (startState su))%Z.
Proof. unfold monthlyLoop. apply (months_after 12). Qed.


End Amortisation.



Example shortLoan_liabilities :
  totalLiabilities
  <$> fst (calculateCompoundInterest ∅ shortLoanParams [] 34 2025)
  = [100000; 51247; 0; 0; 0].
Proof. vm_compute. reflexivity. Qed.

(** ** After the term of the mortgage *)

Section AfterTheTerm.

Variable pl : Plan.

Lemma year_step_months y s :
  (monthsRemainingOnMortgage (fst (year_step pl y s))
   <= Z.max 0 (monthsRemainingOnMortgage s - 12))%Z.
Proof.
  rewrite year_step_fst, yearEnd_months.
  destruct (monthlyLoop_months pl (yearSetup pl y s)) as [Hle _].
  by rewrite startState_months in Hle.
Qed.

Lemma year_step_settled y s :
  (monthsRemainingOnMortgage s <= 0)%Z →
  mortgageBalance (fst (year_step pl y s)) = mortgageBalance s.
Proof.
  intros Hs. rewrite year_step_fst, yearEnd_mortgageBalance.
  destruct (monthlyLoop_months pl (yearSetup pl y s)) as [_ Heq].
  rewrite startState_months, startState_mortgageBalance in Heq. by apply Heq.
Qed.

Lemma runYears_months k y st :
  (monthsRemainingOnMortgage (runYears pl k y st)
   <= Z.max 0 (monthsRemainingOnMortgage st - 12 * Z.of_nat k))%Z.
Proof.
  induction k as [|k IH]; [cbn [runYears]; lia|].
  rewrite runYears_S.
  pose proof (year_step_months (y + Z.of_nat k) (runYears pl k y st)). lia.
Qed.

End AfterTheTerm.

(** X11. Once the term of the mortgage is over the liabilities shown
    never change again, whatever was paid: a record at or after the
    [remainingYears]-th year is followed by a record with the same
    liabilities (rounded).  A payment set too low therefore leaves a debt
    that stays to the end of the projection. *)
Theorem X11_liabilities_frozen_after_term (h : gmap nat Asset)
    (params : CalculationParams) (evs : list LifecycleEvent)
    (lifeExpectancy cy : Z) (i : nat) (r r' : YearlyResult) :
  let res := fst (calculateCompoundInterest h params evs lifeExpectancy cy) in
  res !! i = Some r →
  res !! S i = Some r' →
  (currentAge params + remainingYears (mortgage params) <= age r)%Z →
  totalLiabilities r' = Js.Math_round (totalLiabilities r).
Proof.
  intros res Hr Hr' Hterm. unfold res in *.
  rewrite calculateCompoundInterest_closed in Hr, Hr'. cbn [fst] in Hr, Hr'.
  set (pl := makePlan params evs (statsOf h (assets params)) cy) in *.
  unfold project in Hr, Hr'.
  destruct (_ <=? 0)%Z; [done|].
  set (st0 := initialState (plan_params pl)) in *.
  set (n := Z.to_nat _) in *.
  change ((firstRecord pl st0 :: yearly_loop pl n 1 st0) !! S i)
    with (yearly_loop pl n 1 st0 !! i) in Hr'.
  assert (Hi : (i < n)%nat).
  { apply lookup_lt_Some in Hr'. by rewrite yearly_loop_length in Hr'. }
  rewrite yearly_loop_lookup in Hr' by done. apply (inj Some) in Hr' as <-.
  rewrite year_step_snd. cbn [yearRecord totalLiabilities].
  assert (Hage : age r = (currentAge params + Z.of_nat i)%Z).
  { destruct i as [|j].
    - apply (inj Some) in Hr as <-. cbn [firstRecord age plan_params pl makePlan]. lia.
    - change ((firstRecord pl st0 :: yearly_loop pl n 1 st0) !! S j)
        with (yearly_loop pl n 1 st0 !! j) in Hr.
      rewrite yearly_loop_lookup in Hr by lia. apply (inj Some) in Hr as <-.
      rewrite year_step_snd. cbn [yearRecord age plan_params pl makePlan]. lia. }
  assert (Hmonths : (monthsRemainingOnMortgage (runYears pl i 1 st0) <= 0)%Z).
  { pose proof (runYears_months pl i 1 st0) as Hle.
    assert (monthsRemainingOnMortgage st0
            <= Z.max 0 (12 * remainingYears (mortgage params)))%Z.
    { unfold st0. cbn [initialState monthsRemainingOnMortgage plan_params pl
                       makePlan].
      destruct (hasMortgage (mortgage params)); lia. }
    lia. }
  rewrite (year_step_settled pl _ _ Hmonths).
  destruct i as [|j].
  - apply (inj Some) in Hr as <-. done.
  - change ((firstRecord pl st0 :: yearly_loop pl n 1 st0) !! S j)
      with (yearly_loop pl n 1 st0 !! j) in Hr.
    rewrite yearly_loop_lookup in Hr by lia. apply (inj Some) in Hr as <-.
    rewrite year_step_snd. cbn [yearRecord totalLiabilities].
    rewrite <- runYears_S. by rewrite Math_round_idempotent.
Qed.

Lemma X11_witness :
  totalLiabilities (underpaidAt 32 2027)
  = Js.Math_round (totalLiabilities (underpaidAt 31 2026)).
Proof.
  apply (X11_liabilities_frozen_after_term ∅ underpaidParams [] 34 2025 1
           (underpaidAt 31 2026) (underpaidAt 32 2027)).
  - vm_compute. reflexivity.
  - vm_compute. reflexivity.
  - vm_compute. discriminate.
Defined.

(** ** The Monte Carlo table *)

Section MonteCarlo.

Variables (params : CalculationParams) (mean vol : Q) (randn : nat → Q).

Lemma trial_years_spec n :
  ∀ y balance k r,
    (y + n <= length r)%nat →
    length (fst (trial_years params mean vol randn n y balance k r)) = length r
    ∧ (∀ idx, (idx < y ∨ y + n <= idx)%nat →
         fst (trial_years params mean vol randn n y balance k r) !! idx
         = r !! idx)
    ∧ (∀ idx, (y <= idx < y + n)%nat →
         ∃ b, 0 <= b
              ∧ fst (trial_years params mean vol randn n y balance k r) !! idx
                = (fun bs => bs ++ [b]) <$> r !! idx).
Proof.
  induction n as [|n IH]; intros y balance k r Hlen; cbn [trial_years].
  - cbn [fst]. split; [done|]. split; [done|]. intros idx Hidx. lia.
  - set (b1 := balance * (1 + (mean + vol * randn k))
               + (monthlyContribution params * 12
                  + annualExtraContribution params)).
    set (b2 := if Js.ltb b1 0 then 0 else b1).
    assert (Hb2 : 0 <= b2).
    { unfold b2. destruct (Js.ltb b1 0) eqn:E; [lra|]. by apply ltb_ge in E. }
    destruct (IH (S y) b2 (S k) (alter (fun bs => bs ++ [b2]) y r))
      as (Hl & Hout & Hin).
    { rewrite length_alter. lia. }
    rewrite length_alter in Hl. split; [done|]. split.
    + intros idx Hidx. rewrite Hout by lia.
      apply list_lookup_alter_ne. lia.
    + intros idx Hidx. destruct (decide (idx = y)) as [->|Hne].
      * exists b2. split; [done|]. rewrite Hout by lia.
        apply list_lookup_alter_eq.
      * destruct (Hin idx) as (b & Hb & ->); [lia|].
        exists b. split; [done|]. rewrite list_lookup_alter_ne by lia. done.
Qed.

Lemma trials_spec years s :
  ∀ k c r,
    length r = S years →
    filledRows (initialPrincipal params) c r →
    ∃ r', trials params mean vol randn years s k r = Some r'
          ∧ length r' = S years
          ∧ filledRows (initialPrincipal params) (c + s) r'.
Proof.
  induction s as [|s IH]; intros k c r Hlen Hrows; cbn [trials].
  - exists r. by rewrite Nat.add_0_r.
  - destruct (r !! 0%nat) as [row0|] eqn:E0.
    2:{ apply lookup_ge_None in E0. lia. }
    set (r0 := alter (fun bs => bs ++ [initialPrincipal params]) 0%nat r).
    pose proof (trial_years_spec years 1 (initialPrincipal params) k r0)
      as Hspec.
    destruct (trial_years params mean vol randn years 1
                (initialPrincipal params) k r0) as [r1 k'].
    cbn [fst] in Hspec.
    destruct Hspec as (Hl & Hout & Hin).
    { unfold r0. rewrite length_alter. lia. }
    unfold r0 in Hl. rewrite length_alter in Hl.
    replace (c + S s)%nat with (S c + s)%nat by lia.
    apply IH; [lia|].
    intros idx bs Hbs. destruct idx as [|idx].
    + rewrite Hout in Hbs by lia. unfold r0 in Hbs.
      rewrite list_lookup_alter_eq, E0 in Hbs. injection Hbs as <-.
      destruct (Hrows 0%nat row0 E0) as (Hc & Hfirst & _).
      rewrite length_app, Hc. cbn [length]. split; [lia|]. split; [|lia].
      intros _. apply Forall_app. split; [by apply Hfirst|].
      by constructor.
    + assert (Hidx : (S idx < length r1)%nat) by (by apply lookup_lt_Some in Hbs).
      destruct (Hin (S idx)) as (b & Hb & Eb); [lia|].
      rewrite Eb in Hbs. unfold r0 in Hbs.
      rewrite list_lookup_alter_ne in Hbs by lia.
      destruct (r !! S idx) as [row|] eqn:Erow; [|done].
      injection Hbs as <-.
      destruct (Hrows (S idx) row Erow) as (Hc & _ & Hlater).
      rewrite length_app, Hc. cbn [length]. split; [lia|]. split; [lia|].
      intros _. apply Forall_app. split; [apply Hlater; lia|].
      by constructor.
Qed.

End MonteCarlo.

Section Sorting.

Lemma insert_sorted_Forall (P : Q → Prop) x l :
  Forall P (insert_sorted x l) ↔ P x ∧ Forall P l.
Proof.
  induction l as [|y l IH]; cbn [insert_sorted].
  - rewrite Forall_singleton. split; [intros; split; [done | constructor] | tauto].
  - destruct (Js.ltb x y).
    + apply Forall_cons.
    + rewrite !Forall_cons, IH. tauto.
Qed.

Lemma insert_sorted_length x l : length (insert_sorted x l) = S (length l).
Proof.
  induction l as [|y l IH]; cbn [insert_sorted]; [done|].
  destruct (Js.ltb x y); cbn [length]; [done | by rewrite IH].
Qed.


Lemma sort_from_Forall (P : Q → Prop) l :
  ∀ acc, Forall P acc → Forall P l →
         Forall P (foldl (fun sorted x => insert_sorted x sorted) acc l).
Proof.
  induction l as [|x l IH]; intros acc Hacc Hl; cbn [foldl]; [done|].
  apply Forall_cons in Hl as [Hx Hl].
  apply IH; [|done]. apply insert_sorted_Forall. by split.
Qed.

Lemma sort_from_length l :
  ∀ acc, length (foldl (fun sorted x => insert_sorted x sorted) acc l)
         = (length acc + length l)%nat.
Proof.
  induction l as [|x l IH]; intros acc; cbn [foldl length]; [lia|].
  rewrite IH, insert_sorted_length. lia.
Qed.


Lemma sort_numbers_Forall (P : Q → Prop) l :
  Forall P l → Forall P (sort_numbers l).
Proof. intros Hl. apply sort_from_Forall; [constructor | done]. Qed.

Lemma sort_numbers_length l : length (sort_numbers l) = length l.
Proof. unfold sort_numbers. by rewrite sort_from_length. Qed.




(** The slot a percentile is read from. *)
Lemma percentile_slot sims t :
  Js.Math_floor (inject_Z sims * (inject_Z t / 10)) = (sims * t / 10)%Z.
Proof.
  unfold Js.Math_floor.
  rewrite (Qfloor_comp _ ((sims * t) # 10)).
  - reflexivity.
  - exact_arith. unfold Qeq, Qmult, Qdiv, Qinv, inject_Z. cbn. lia.
Qed.


Lemma percentile_of_sorted bs sims t :
  (1 <= sims)%Z → (0 <= t <= 9)%Z → length bs = Z.to_nat sims →
  ∃ x, sort_numbers bs !! Z.to_nat (sims * t / 10) = Some x
       ∧ percentile (sort_numbers bs) sims t = Some (Js.Math_round x).
Proof.
  intros Hs Ht Hlen. unfold percentile. rewrite percentile_slot.
  assert (0 <= sims * t / 10 < sims)%Z as [Hlo Hhi].
  { split; [apply Z.div_pos; lia|]. apply Z.div_lt_upper_bound; nia. }
  destruct (sort_numbers bs !! Z.to_nat (sims * t / 10)) as [x|] eqn:E.
  2:{ apply lookup_ge_None in E. rewrite sort_numbers_length in E. lia. }
  exists x. split; [done|].
  destruct (Z.ltb_spec (sims * t / 10) 0); [lia|]. done.
Qed.

Lemma percentile_of_none bs sims t :
  (sims <= 0)%Z → length bs = Z.to_nat sims →
  percentile (sort_numbers bs) sims t = None.
Proof.
  intros Hs Hlen. unfold percentile.
  destruct (_ <? 0)%Z; [done|].
  destruct bs as [|b bs]; [done|]. cbn [length] in Hlen. lia.
Qed.

End Sorting.

Section MonteCarloTable.

Variables (h : gmap nat Asset) (params : CalculationParams)
          (simulations : Z) (randn : nat → Q) (cy : Z).

Lemma runMonteCarloSimulation_rows :
  (currentAge params <= retirementAge params)%Z →
  ∃ filled,
    fst (runMonteCarloSimulation h params simulations randn cy)
    = Some (imap (monteCarloRow params simulations cy) filled)
    ∧ length filled
      = Z.to_nat (retirementAge params - currentAge params + 1)
    ∧ filledRows (initialPrincipal params) (Z.to_nat simulations) filled.
Proof.
  intros Hages. unfold runMonteCarloSimulation.
  rewrite calculatePortfolioStats_closed.
  set (years := (retirementAge params - currentAge params)%Z).
  assert (Hy : Z.to_nat (years + 1) = S (Z.to_nat years)) by lia.
  match goal with
  | |- context [trials params ?m ?v randn _ _ 0%nat _] =>
      destruct (trials_spec params m v randn (Z.to_nat years)
                  (Z.to_nat simulations) 0%nat 0%nat
                  (replicate (Z.to_nat (years + 1)) []))
        as (filled & -> & Hlen & Hrows)
  end.
  - by rewrite length_replicate.
  - intros idx bs Hbs. apply lookup_replicate in Hbs as [-> _].
    split; [done|]. split; intros _; constructor.
  - exists filled. cbn [fst]. split; [done|]. split; [lia | done].
Qed.

End MonteCarloTable.

(** X12. When the retirement age is not below the current age the Monte
    Carlo simulation returns one row for every age from the current age
    to the retirement age, in order, each with the calendar year that
    belongs to it. *)
Theorem X12_monte_carlo_one_row_per_age (h : gmap nat Asset)
    (params : CalculationParams) (simulations : Z) (randn : nat → Q) (cy : Z) :
  (currentAge params <= retirementAge params)%Z →
  ∃ res,
    fst (runMonteCarloSimulation h params simulations randn cy) = Some res
    ∧ Z.of_nat (length res) = (retirementAge params - currentAge params + 1)%Z
    ∧ ∀ i r, res !! i = Some r →
             sim_age r = (currentAge params + Z.of_nat i)%Z
             ∧ sim_year r = (cy + Z.of_nat i)%Z.
Proof.
  intros Hages.
  destruct (runMonteCarloSimulation_rows h params simulations randn cy Hages)
    as (filled & -> & Hlen & _).
  eexists. split; [done|]. rewrite length_imap. split; [lia|].
  intros i r Hr. rewrite list_lookup_imap in Hr.
  destruct (filled !! i); [|done]. apply (inj Some) in Hr as <-. done.
Qed.

Lemma X12_witness :
  ∃ res,
    fst (runMonteCarloSimulation ∅ saverParams 3 (fun _ => 0) 2025) = Some res
    ∧ Z.of_nat (length res) = (32 - 30 + 1)%Z
    ∧ ∀ i r, res !! i = Some r →
             sim_age r = (30 + Z.of_nat i)%Z
             ∧ sim_year r = (2025 + Z.of_nat i)%Z.
Proof.
  apply (X12_monte_carlo_one_row_per_age ∅ saverParams 3 (fun _ => 0) 2025).
  vm_compute. discriminate.
Defined.

(** X13. When the retirement age is below the current age and at least
    one trial is asked for, the Monte Carlo simulation fails: the table of
    balances has no first column to write the starting balance to. *)
Theorem X13_monte_carlo_fails_past_retirement (h : gmap nat Asset)
    (params : CalculationParams) (simulations : Z) (randn : nat → Q) (cy : Z) :
  (retirementAge params < currentAge params)%Z →
  (1 <= simulations)%Z →
  fst (runMonteCarloSimulation h params simulations randn cy) = None.
Proof.
  intros Hages Hsims. unfold runMonteCarloSimulation.
  rewrite calculatePortfolioStats_closed.
  replace (Z.to_nat (retirementAge params - currentAge params + 1))
    with 0%nat by lia.
  destruct (Z.to_nat simulations) as [|s] eqn:E; [lia|]. done.
Qed.

Lemma X13_witness :
  fst (runMonteCarloSimulation ∅ elderParams 500 (fun _ => 0) 2025) = None.
Proof.
  apply (X13_monte_carlo_fails_past_retirement ∅ elderParams 500 (fun _ => 0) 2025);
    vm_compute; [reflexivity | discriminate].
Defined.





(** X16. Asked for no trial at all (a count of zero or below), the Monte
    Carlo simulation still returns its rows, but none of them has a
    percentile: all three are NaN. *)
Theorem X16_no_trials_no_percentiles (h : gmap nat Asset)
    (params : CalculationParams) (simulations : Z) (randn : nat → Q) (cy : Z) :
  (currentAge params <= retirementAge params)%Z →
  (simulations <= 0)%Z →
  ∃ res,
    fst (runMonteCarloSimulation h params simulations randn cy) = Some res
    ∧ Forall bandUndefined res.
Proof.
  intros Hages Hsims.
  destruct (runMonteCarloSimulation_rows h params simulations randn cy Hages)
    as (filled & -> & _ & Hrows).
  eexists. split; [done|]. apply Forall_lookup. intros i r Hr.
  rewrite list_lookup_imap in Hr.
  destruct (filled !! i) as [bs|] eqn:Ebs; [|done]. apply (inj Some) in Hr as <-.
  destruct (Hrows i bs Ebs) as (Hlen & _).
  unfold bandUndefined. cbn [monteCarloRow p10 p50 p90].
  by rewrite !percentile_of_none.
Qed.

Lemma X16_witness :
  ∃ res,
    fst (runMonteCarloSimulation ∅ saverParams 0 (fun _ => 0) 2025) = Some res
    ∧ Forall bandUndefined res.
Proof.
  apply (X16_no_trials_no_percentiles ∅ saverParams 0 (fun _ => 0) 2025);
    [vm_compute; discriminate | lia].
Defined.

(** ** Inflation and the calendar *)

Section RealValues.

Lemma Math_pow_one b n : b == 1 → Js.Math_pow b n == 1.
Proof.
  intros Hb. unfold Js.Math_pow. rewrite Qred_correct, Hb. apply Qpower_1.
Qed.

Lemma yearRecord_real pl y e st :
  inflationRate (plan_params pl) == 0 →
  realIsNominal (yearRecord pl y e st).
Proof.
  intros Hinf.
  assert (HD : Js.Math_pow (1 + inflationRate (plan_params pl) / 100) (- y)
               == 1).
  { apply Math_pow_one. exact_arith. rewrite Hinf. reflexivity. }
  unfold realIsNominal.
  cbn [yearRecord totalPrincipalReal totalAppreciationReal totalDividendsReal
       totalBalanceReal totalLiabilitiesReal netWorthReal
       yearlyPassiveIncomeReal totalPrincipal totalAppreciation totalDividends
       totalBalance totalLiabilities netWorth yearlyPassiveIncome].
  repeat split; apply Math_round_comp;
    rewrite mul_exact, HD, Qmult_1_r; reflexivity.
Qed.

End RealValues.

(** X17. With an inflation rate of zero every inflation-adjusted figure
    of every record equals its nominal figure. *)
Theorem X17_no_inflation_real_is_nominal (h : gmap nat Asset)
    (params : CalculationParams) (evs : list LifecycleEvent)
    (lifeExpectancy cy : Z) :
  inflationRate params == 0 →
  Forall realIsNominal
    (fst (calculateCompoundInterest h params evs lifeExpectancy cy)).
Proof.
  intros Hinf. rewrite calculateCompoundInterest_closed. cbn [fst].
  set (pl := makePlan _ _ _ _). unfold project.
  destruct (_ <=? 0)%Z; [constructor|].
  constructor.
  - unfold realIsNominal. cbn. repeat split.
  - apply (yearly_loop_invariant pl (fun _ _ => True)); [|done].
    intros k s _ _. split; [done|].
    rewrite year_step_snd. by apply yearRecord_real.
Qed.

Lemma X17_witness :
  Forall realIsNominal
    (fst (calculateCompoundInterest ∅ flatMortgageParams [] 33 2025)).
Proof.
  apply (X17_no_inflation_real_is_nominal ∅ flatMortgageParams [] 33 2025).
  reflexivity.
Defined.

(** X18. The calendar year of a record runs with its age: in every
    record the year is the current year plus the years passed since the
    current age. *)
Theorem X18_year_runs_with_age (h : gmap nat Asset)
    (params : CalculationParams) (evs : list LifecycleEvent)
    (lifeExpectancy cy : Z) :
  Forall (fun r => year r = (cy + (age r - currentAge params))%Z)
    (fst (calculateCompoundInterest h params evs lifeExpectancy cy)).
Proof.
  rewrite calculateCompoundInterest_closed. cbn [fst].
  set (pl := makePlan _ _ _ _). unfold project.
  destruct (_ <=? 0)%Z; [constructor|].
  constructor.
  - cbn [firstRecord year age plan_params plan_currentYear pl makePlan]. lia.
  - apply (yearly_loop_invariant pl (fun _ _ => True)); [|done].
    intros k s _ _. split; [done|].
    rewrite year_step_snd.
    cbn [yearRecord year age plan_params plan_currentYear pl makePlan]. lia.
Qed.

(** ** Gap analysis and required capital *)

Section Capital.

Lemma Math_pow_exact b n : Js.Math_pow b n == (b ^ n)%Q.
Proof. apply Qred_correct. Qed.

Lemma Math_pow_positive b n : 0 < b → 0 < Js.Math_pow b n.
Proof. intros Hb. rewrite Math_pow_exact. by apply Qpower_0_lt. Qed.

End Capital.

(** X19. The conservative amount suggested by the gap analysis closes the
    shortfall: when the shortfall is positive the suggestion, compounded
    at 4.5 percent a year over the years to retirement, is the shortfall;
    when there is no shortfall nothing is suggested.  The conservative
    yield reported is always 4.5. *)
Theorem X19_gap_suggestion_closes_shortfall
    (realStats simulatedStats : PortfolioStats) (years : Z) :
  let g := calculateGapAnalysis realStats simulatedStats years in
  (0 < shortfall g →
   (suggestedConservativeAmount g * (1045 # 1000) ^ years)%Q == shortfall g)
  ∧ (shortfall g <= 0 → suggestedConservativeAmount g = 0)
  ∧ conservativeYield g == 45 # 10.
Proof.
  intros g. unfold g, calculateGapAnalysis.
  cbn [shortfall suggestedConservativeAmount conservativeYield].
  set (gap := _ - _).
  split; [|split].
  - intros Hgap. rewrite (proj2 (ltb_lt 0 gap) Hgap).
    rewrite div_exact, Math_pow_exact, add_exact.
    assert (Hbase : (1 + (45 # 1000))%Q == 1045 # 1000) by reflexivity.
    rewrite Hbase.
    assert (Hpow : 0 < ((1045 # 1000) ^ years)%Q)
      by (apply Qpower_0_lt; reflexivity).
    generalize dependent ((1045 # 1000) ^ years)%Q. intros p Hp.
    clearbody gap. field. lra.
  - intros Hgap. by rewrite (proj2 (ltb_ge 0 gap) Hgap).
  - rewrite mul_exact. reflexivity.
Qed.

Lemma X19_witness :
  (suggestedConservativeAmount (calculateGapAnalysis smallStats largeStats 2)
   * (1045 # 1000) ^ 2)%Q
  == shortfall (calculateGapAnalysis smallStats largeStats 2).
Proof.
  apply (proj1 (X19_gap_suggestion_closes_shortfall smallStats largeStats 2)).
  vm_compute. reflexivity.
Defined.

(** X20. The required capital pays the target income: at a positive
    yield, a twelfth of the yearly yield on the required capital is the
    target monthly income. *)
Theorem X20_required_capital_pays_target (targetMonthlyIncome annualYield : Q) :
  0 < annualYield →
  (calculateRequiredCapital targetMonthlyIncome annualYield
   * (annualYield / 100) / 12)%Q == targetMonthlyIncome.
Proof.
  intros Hy. unfold calculateRequiredCapital.
  destruct (Qle_bool annualYield 0) eqn:E.
  { apply Qle_bool_iff in E. exfalso. lra. }
  do 2 exact_arith. field. lra.
Qed.

Lemma X20_witness :
  (calculateRequiredCapital 20000 4 * (4 / 100) / 12)%Q == 20000.
Proof.
  apply (X20_required_capital_pays_target 20000 4). reflexivity.
Defined.

(** ** Currency conversion *)

(** X21. Conversion to HKD keeps the order of amounts, for every
    currency, and leaves an amount in HKD as it is. *)
Theorem X21_conversion_keeps_order (a b : Q) (c : Currency) :
  a <= b →
  convertToHKD a c <= convertToHKD b c ∧ convertToHKD a HKD == a.
Proof.
  intros Hab. unfold convertToHKD. split.
  - destruct c; cbn [EXCHANGE_RATES]; unfold Js.or_else;
      match goal with
      | |- context [Qeq_bool ?r 0] =>
          change (Qeq_bool r 0) with false; cbv iota
      end;
      rewrite !mul_exact; apply Qmult_le_compat_r; done.
  - cbn [EXCHANGE_RATES]. unfold Js.or_else.
    change (Qeq_bool 1 0) with false. cbv iota.
    rewrite mul_exact. apply Qmult_1_r.
Qed.

Lemma X21_witness :
  convertToHKD 100 USD <= convertToHKD 200 USD ∧ convertToHKD 100 HKD == 100.
Proof.
  apply (X21_conversion_keeps_order 100 200 USD). vm_compute. discriminate.
Defined.

(** ** The weighted statistics as averages *)

Section Averages.

Variables (h : gmap nat Asset) (f : Asset → Q) (lo hi total : Q).

Hypothesis total_positive : 0 < total.

Lemma weighted_between refs :
  holdings (fun a => 0 <= hkdValueOf a) h refs →
  holdings (within f lo hi) h refs →
  ∀ acc v,
    v <= foldl (firstPass h) v refs
    ∧ lo * ((foldl (firstPass h) v refs - v) / total)
      <= weightedSum f h total refs acc - acc
    ∧ weightedSum f h total refs acc - acc
      <= hi * ((foldl (firstPass h) v refs - v) / total).
Proof.
  unfold weightedSum.
  induction refs as [|l refs IH]; intros Hval Hrange acc v; cbn [foldl].
  - repeat split; try lra; unfold Qdiv; ring_simplify; lra.
  - apply Forall_cons in Hval as [Hv Hval].
    apply Forall_cons in Hrange as [Hr Hrange].
    destruct (h !! l) as [a|] eqn:El.
    2:{ assert (E1 : firstPass h v l = v) by (unfold firstPass; by rewrite El).
        assert (E2 : weightedStep f h total acc l = acc)
          by (unfold weightedStep; by rewrite El).
        rewrite E1, E2. by apply IH. }
    assert (E1 : firstPass h v l = (v + hkdValueOf a)%js)
      by (unfold firstPass; by rewrite El).
    assert (E2 : weightedStep f h total acc l
                 = (acc + f a * (hkdValueOf a / total))%js)
      by (unfold weightedStep; by rewrite El).
    rewrite E1, E2. clear E1 E2.
    destruct Hr as [Hlo Hhi].
    destruct (IH Hval Hrange (acc + f a * (hkdValueOf a / total))%js
                (v + hkdValueOf a)%js) as (Hmono & Hlow & Hup).
    clear IH Hval Hrange El.
    set (S := foldl (firstPass h) (v + hkdValueOf a)%js refs) in *.
    set (W := foldl (weightedStep f h total)
                (acc + f a * (hkdValueOf a / total))%js refs) in *.
    clearbody S W.
    repeat (progress rewrite ?add_exact, ?mul_exact, ?div_exact in Hmono).
    repeat (progress rewrite ?add_exact, ?mul_exact, ?div_exact in Hlow).
    repeat (progress rewrite ?add_exact, ?mul_exact, ?div_exact in Hup).
    set (x := hkdValueOf a) in *. set (fa := f a) in *. clearbody x fa.
    assert (Ht : 0 < / total) by (by apply Qinv_lt_0_compat).
    unfold Qdiv in *. set (t := / total) in *. clearbody t.
    assert (Hxt : 0 <= x * t) by (apply Qmult_le_0_compat; lra).
    assert (H1 : lo * (x * t) <= fa * (x * t))
      by (by apply Qmult_le_compat_r).
    assert (H2 : fa * (x * t) <= hi * (x * t))
      by (by apply Qmult_le_compat_r).
    assert (E1 : lo * ((S - v) * t) == lo * ((S - (v + x)) * t) + lo * (x * t))
      by ring.
    assert (E2 : hi * ((S - v) * t) == hi * ((S - (v + x)) * t) + hi * (x * t))
      by ring.
    repeat split; [lra | rewrite E1; lra | rewrite E2; lra].
Qed.

Lemma weighted_average refs :
  holdings (fun a => 0 <= hkdValueOf a) h refs →
  holdings (within f lo hi) h refs →
  sumValueHKD h refs == total →
  lo <= weightedSum f h total refs 0 ∧ weightedSum f h total refs 0 <= hi.
Proof.
  intros Hval Hrange Hsum.
  destruct (weighted_between refs Hval Hrange 0 0) as (_ & Hlow & Hup).
  fold (sumValueHKD h refs) in Hlow, Hup.
  assert (E : ((sumValueHKD h refs - 0) / total)%Q == 1).
  { rewrite Hsum. field. lra. }
  rewrite E in Hlow, Hup. lra.
Qed.

End Averages.

(** X22. The weighted statistics are averages: when no holding has a
    negative value and the portfolio is worth something, the weighted
    return, yield and volatility each lie within the range of the
    holdings' own figures. *)
Theorem X22_weighted_stats_within_holdings (h : gmap nat Asset)
    (refs : list nat) (lo hi : Q) :
  let stats := fst (calculatePortfolioStats h refs) in
  holdings (fun a => 0 <= hkdValueOf a) h refs →
  0 < sumValueHKD h refs →
  (holdings (within expectedReturn lo hi) h refs →
   lo <= weightedReturn stats ∧ weightedReturn stats <= hi)
  ∧ (holdings (within dividendYield lo hi) h refs →
     lo <= weightedYield stats ∧ weightedYield stats <= hi)
  ∧ (holdings (within volatility lo hi) h refs →
     lo <= weightedVolatility stats ∧ weightedVolatility stats <= hi).
Proof.
  intros stats Hval Htotal. unfold stats.
  rewrite calculatePortfolioStats_closed. cbn [fst]. unfold statsOf.
  destruct (Qeq_bool (sumValueHKD h refs) 0) eqn:E.
  { apply Qeq_bool_iff in E. exfalso. lra. }
  cbn [weightedReturn weightedYield weightedVolatility].
  split; [|split]; intros Hrange;
    exact (weighted_average h _ lo hi (sumValueHKD h refs) Htotal refs
             Hval Hrange (Qeq_refl _)).
Qed.

Lemma X22_witness :
  1 <= weightedReturn (fst (calculatePortfolioStats quarterStore [1%nat; 2%nat]))
  ∧ weightedReturn (fst (calculatePortfolioStats quarterStore [1%nat; 2%nat]))
    <= 20.
Proof.
  refine (proj1 (X22_weighted_stats_within_holdings
                   quarterStore [1%nat; 2%nat] 1 20 _ _) _).
  - repeat (apply Forall_cons; split; [vm_compute; discriminate|]).
    constructor.
  - vm_compute. reflexivity.
  - repeat (apply Forall_cons; split; [vm_compute; split; discriminate|]).
    constructor.
Defined.

(** ** The benchmark table *)

(** X23. Every age has a benchmark (the lookup never comes back empty).
    For an age from 20 to 100 it is the bracket that contains the age; an
    age below 20 or above 100 is compared with the bracket 60+. *)
Theorem X23_benchmark_bracket (a : Z) :
  ∃ b, getHKBenchmark a = Some b
       ∧ b ∈ HK_BENCHMARKS
       ∧ ((20 <= a <= 100)%Z → (minAge b <= a <= maxAge b)%Z)
       ∧ ((a < 20 ∨ 100 < a)%Z → ageRange b = "60+"%string).
Proof.
  unfold getHKBenchmark, HK_BENCHMARKS. cbn [List.find minAge maxAge].
  repeat match goal with
         | |- context [(?lo <=? a)%Z && (a <=? ?hi)%Z] =>
             destruct (Z.leb_spec lo a);
             [destruct (Z.leb_spec a hi)|];
             cbn [andb]; try (exfalso; lia)
         end;
    (eexists; split; [reflexivity|]; split;
     [repeat (first [apply list_elem_of_here | apply list_elem_of_further])
     |cbn [last minAge maxAge ageRange]; split; intros; first [lia | reflexivity]]).
Qed.

(** ** A year without contributions *)

Section IdleYear.

Variable pl : Plan.

Lemma year_step_contributed_idle y s :
  hasMortgage (mortgage (plan_params pl))
  && reinvestAfterPayoff (mortgage (plan_params pl)) = false →
  effectiveMonthlyContrib (yearSetup pl y s) = 0 →
  effectiveAnnualContrib (yearSetup pl y s) = 0 →
  totalContributed (fst (year_step pl y s)) == totalContributed s.
Proof.
  intros Hoff Hcm Hca. rewrite year_step_fst.
  destruct (yearEnd_fields (monthlyLoop pl (yearSetup pl y s))
              (effectiveAnnualContrib (yearSetup pl y s))) as (_ & -> & _).
  rewrite Hca.
  assert (Hloop : totalContributed (monthlyLoop pl (yearSetup pl y s))
                  == totalContributed s).
  { apply (monthlyLoop_invariant_at
             (fun s' => totalContributed s' == totalContributed s)).
    - intros s' Hs'.
      destruct (month_step_money (mortgage (plan_params pl))
                  (mortgageMonthlyPayment pl)
                  (annualRate (mortgage (plan_params pl)) / 100 / 12)
                  (effectiveMonthlyContrib (yearSetup pl y s))
                  (effectiveAppreciation (yearSetup pl y s) / 100 / 12)
                  (effectiveYield (yearSetup pl y s) / 100 / 12) s')
        as (_ & -> & _).
      rewrite Hcm, extraInvest_off by done. lra.
    - by destruct (startState_fields pl y s) as (-> & _). }
  lra.
Qed.

End IdleYear.

(** X24. In a year in which a contribution stop is active nothing is
    paid in (no mortgage payment being redirected into the investments):
    the record of that year shows the total principal of the record
    before it. *)
Theorem X24_contribution_stop_freezes_principal (h : gmap nat Asset)
    (params : CalculationParams) (evs : list LifecycleEvent)
    (lifeExpectancy cy : Z) (i : nat) :
  let res := fst (calculateCompoundInterest h params evs lifeExpectancy cy) in
  hasMortgage (mortgage params) && reinvestAfterPayoff (mortgage params) = false →
  contributionsStopped (currentAge params + Z.of_nat (S i)) evs = true →
  ∀ r r', res !! i = Some r → res !! S i = Some r' →
          totalPrincipal r' = Js.Math_round (totalPrincipal r).
Proof.
  intros res Hoff Hstop r r' Hr Hr'. unfold res in *.
  rewrite calculateCompoundInterest_closed in Hr, Hr'. cbn [fst] in Hr, Hr'.
  set (pl := makePlan params evs (statsOf h (assets params)) cy) in *.
  unfold project in Hr, Hr'.
  destruct (_ <=? 0)%Z; [done|].
  set (st0 := initialState (plan_params pl)) in *.
  set (n := Z.to_nat _) in *.
  change ((firstRecord pl st0 :: yearly_loop pl n 1 st0) !! S i)
    with (yearly_loop pl n 1 st0 !! i) in Hr'.
  assert (Hi : (i < n)%nat).
  { apply lookup_lt_Some in Hr'. by rewrite yearly_loop_length in Hr'. }
  rewrite yearly_loop_lookup in Hr' by done. apply (inj Some) in Hr' as <-.
  rewrite year_step_snd. cbn [yearRecord totalPrincipal].
  rewrite (Math_round_comp _ (totalContributed (runYears pl i 1 st0))).
  2:{ apply year_step_contributed_idle; [done| |];
        unfold yearSetup;
        cbn [effectiveMonthlyContrib effectiveAnnualContrib plan_params
             plan_events pl makePlan];
        rewrite stopped_filtered;
        replace (currentAge params + (1 + Z.of_nat i))%Z
          with (currentAge params + Z.of_nat (S i))%Z by lia;
        by rewrite Hstop. }
  destruct i as [|j].
  - apply (inj Some) in Hr as <-. done.
  - change ((firstRecord pl st0 :: yearly_loop pl n 1 st0) !! S j)
      with (yearly_loop pl n 1 st0 !! j) in Hr.
    rewrite yearly_loop_lookup in Hr by lia. apply (inj Some) in Hr as <-.
    rewrite year_step_snd. cbn [yearRecord totalPrincipal].
    rewrite <- runYears_S. by rewrite Math_round_idempotent.
Qed.

Lemma X24_witness :
  totalPrincipal (nothingAt 31 2026)
  = Js.Math_round (totalPrincipal (nothingAt 30 2025)).
Proof.
  apply (X24_contribution_stop_freezes_principal ∅ saverParams pauseAt31
           34 2025 0 eq_refl eq_refl (nothingAt 30 2025) (nothingAt 31 2026));
    vm_compute; reflexivity.
Defined.

(** ** Stress tests with nothing left to simulate *)

Section NothingToSimulate.

Lemma outcome_of_nothing sc :
  finalBalance (outcome sc [] 0) = 0
  ∧ baselineBalance (outcome sc [] 0) = 0
  ∧ isBankrupt (outcome sc [] 0) = false
  ∧ status (outcome sc [] 0) = DANGER.
Proof.
  unfold outcome.
  cbn [finalBalance baselineBalance isBankrupt status lastBalance last
       List.find].
  change (Js.ltb 0 0) with false. change (Qle_bool 0 0) with true.
  cbn [orb]. by rewrite andb_false_r.
Qed.

Lemma projection_of_nothing h params evs lifeExpectancy cy :
  (lifeExpectancy <= currentAge params)%Z →
  fst (calculateCompoundInterest h params evs lifeExpectancy cy) = [].
Proof.
  intros Hle. rewrite calculateCompoundInterest_closed. cbn [fst].
  unfold project. cbn [plan_params makePlan].
  by rewrite (proj2 (Z.leb_le _ 0)) by lia.
Qed.

End NothingToSimulate.

(** X25. For someone who is 85 or older there is nothing to simulate,
    and the stress tests say so in an alarming way: every scenario but
    the longevity one is reported with a final balance and a baseline of
    zero, not bankrupt, and with the status DANGER. *)
Theorem X25_stress_tests_at_85 (h : gmap nat Asset)
    (params : CalculationParams) (cy : Z) :
  (85 <= currentAge params)%Z →
  Forall (fun o =>
            sid (scenario o) ≠ "longevity"%string →
            finalBalance o = 0 ∧ baselineBalance o = 0
            ∧ isBankrupt o = false ∧ status o = DANGER)
    (fst (runStressTests h params cy)).
Proof.
  intros Hage. rewrite runStressTests_closed. cbn [fst].
  rewrite (projection_of_nothing h params [] 85 cy Hage).
  change (lastBalance []) with 0.
  assert (Hnone : ∀ sc, customLifeExpectancy sc = None →
                    outcome sc (scenarioProjection h params cy sc) 0
                    = outcome sc [] 0).
  { intros sc Hle. unfold scenarioProjection. rewrite Hle. cbn [Js.or_elseZ].
    by rewrite projection_of_nothing. }
  unfold scenarios.
  repeat (rewrite fmap_cons; apply Forall_cons; split;
          [first [ rewrite Hnone by reflexivity; intros _;
                   apply outcome_of_nothing
                 | intros Hsid; exfalso; apply Hsid; reflexivity ]|]).
  constructor.
Qed.

Lemma X25_witness :
  Forall (fun o =>
            sid (scenario o) ≠ "longevity"%string →
            finalBalance o = 0 ∧ baselineBalance o = 0
            ∧ isBankrupt o = false ∧ status o = DANGER)
    (fst (runStressTests ∅ ninetyParams 2025)).
Proof.
  apply (X25_stress_tests_at_85 ∅ ninetyParams 2025). vm_compute. discriminate.
Defined.

(** ** Monte Carlo without volatility *)

Section CalmTrials.

Variables (params : CalculationParams) (mean : Q) (randn : nat → Q).

Lemma mul_zero_l x : (0 * x)%js = 0.
Proof.
  unfold Js.mul. transitivity (Qred 0); [|reflexivity].
  apply Qred_complete. apply Qmult_0_l.
Qed.

Lemma div_of_zero x y : x == 0 → (x / y)%js = 0.
Proof.
  intros Hx. unfold Js.div. transitivity (Qred 0); [|reflexivity].
  apply Qred_complete. rewrite Hx. unfold Qdiv. apply Qmult_0_l.
Qed.

Lemma trial_years_calm n :
  ∀ y balance k r,
    (y + n <= length r)%nat →
    length (fst (trial_years params mean 0 randn n y balance k r)) = length r
    ∧ (∀ idx, (idx < y ∨ y + n <= idx)%nat →
         fst (trial_years params mean 0 randn n y balance k r) !! idx
         = r !! idx)
    ∧ (∀ idx, (y <= idx < y + n)%nat →
         fst (trial_years params mean 0 randn n y balance k r) !! idx
         = (fun bs =>
              bs ++ [Nat.iter (S (idx - y)) (calmGrowth params mean) balance])
           <$> r !! idx).
Proof.
  induction n as [|n IH]; intros y balance k r Hlen; cbn [trial_years].
  - cbn [fst]. split; [done|]. split; [done|]. intros idx Hidx. lia.
  - rewrite mul_zero_l.
    match goal with
    | |- context [trial_years _ _ _ _ _ _ ?b _ _] =>
        assert (Eb : b = calmGrowth params mean balance) by reflexivity;
        rewrite Eb; clear Eb
    end.
    set (b2 := calmGrowth params mean balance).
    destruct (IH (S y) b2 (S k) (alter (fun bs => bs ++ [b2]) y r))
      as (Hl & Hout & Hin).
    { rewrite length_alter. lia. }
    rewrite length_alter in Hl. split; [done|]. split.
    + intros idx Hidx. rewrite Hout by lia.
      apply list_lookup_alter_ne. lia.
    + intros idx Hidx. destruct (decide (idx = y)) as [->|Hne].
      * rewrite Hout by lia. rewrite list_lookup_alter_eq.
        by rewrite Nat.sub_diag.
      * rewrite Hin by lia. rewrite list_lookup_alter_ne by lia.
        replace (idx - y)%nat with (S (idx - S y)) by lia.
        by rewrite (Nat.iter_succ_r (S (idx - S y))).
Qed.

Lemma trials_calm years s :
  ∀ k c r,
    length r = S years →
    calmRows params mean c r →
    ∃ r', trials params mean 0 randn years s k r = Some r'
          ∧ length r' = S years
          ∧ calmRows params mean (c + s) r'.
Proof.
  induction s as [|s IH]; intros k c r Hlen Hrows; cbn [trials].
  - exists r. by rewrite Nat.add_0_r.
  - destruct (r !! 0%nat) as [row0|] eqn:E0.
    2:{ apply lookup_ge_None in E0. lia. }
    set (r0 := alter (fun bs => bs ++ [initialPrincipal params]) 0%nat r).
    pose proof (trial_years_calm years 1 (initialPrincipal params) k r0)
      as Hspec.
    destruct (trial_years params mean 0 randn years 1
                (initialPrincipal params) k r0) as [r1 k'].
    cbn [fst] in Hspec.
    destruct Hspec as (Hl & Hout & Hin).
    { unfold r0. rewrite length_alter. lia. }
    unfold r0 in Hl. rewrite length_alter in Hl.
    replace (c + S s)%nat with (S c + s)%nat by lia.
    apply IH; [lia|].
    intros idx bs Hbs. destruct idx as [|idx].
    + rewrite Hout in Hbs by lia. unfold r0 in Hbs.
      rewrite list_lookup_alter_eq, E0 in Hbs. apply (inj Some) in Hbs as <-.
      rewrite (Hrows 0%nat row0 E0). by rewrite replicate_S_end.
    + assert (Hidx : (S idx < length r1)%nat) by (by apply lookup_lt_Some in Hbs).
      rewrite Hin in Hbs by lia. unfold r0 in Hbs.
      rewrite list_lookup_alter_ne in Hbs by lia.
      destruct (r !! S idx) as [row|] eqn:Erow; [|done].
      apply (inj Some) in Hbs as <-.
      rewrite (Hrows (S idx) row Erow).
      replace (S idx - 1)%nat with idx by lia.
      by rewrite replicate_S_end.
Qed.

Lemma trial_years_any_draws (randn' : nat → Q) n :
  ∀ y balance k r,
    trial_years params mean 0 randn n y balance k r
    = trial_years params mean 0 randn' n y balance k r.
Proof.
  induction n as [|n IH]; intros y balance k r; cbn [trial_years]; [done|].
  rewrite !mul_zero_l. apply IH.
Qed.

Lemma trials_any_draws (randn' : nat → Q) years s :
  ∀ k r,
    trials params mean 0 randn years s k r
    = trials params mean 0 randn' years s k r.
Proof.
  induction s as [|s IH]; intros k r; cbn [trials]; [done|].
  destruct (r !! 0%nat); [|done].
  rewrite (trial_years_any_draws randn').
  destruct (trial_years params mean 0 randn' years 1 _ k _) as [r1 k'].
  apply IH.
Qed.

End CalmTrials.

(** X26. Without volatility in the portfolio the Monte Carlo band is a
    line: with at least one trial, the three percentiles of every row are
    one and the same number, and the table does not depend on the random
    draws. *)
Theorem X26_no_volatility_no_band (h : gmap nat Asset)
    (params : CalculationParams) (simulations : Z) (randn : nat → Q) (cy : Z) :
  (currentAge params <= retirementAge params)%Z →
  (1 <= simulations)%Z →
  weightedVolatility (fst (calculatePortfolioStats h (assets params))) == 0 →
  ∃ res,
    fst (runMonteCarloSimulation h params simulations randn cy) = Some res
    ∧ Forall (fun r => ∃ x, bandAt x r) res
    ∧ ∀ randn',
        fst (runMonteCarloSimulation h params simulations randn' cy)
        = Some res.
Proof.
  intros Hages Hsims Hvol.
  assert (Hrun : ∀ rn,
            fst (runMonteCarloSimulation h params simulations rn cy)
            = fst (runMonteCarloSimulation h params simulations randn cy)).
  { intros rn. unfold runMonteCarloSimulation.
    rewrite calculatePortfolioStats_closed in *. cbn [fst snd] in *.
    rewrite (div_of_zero _ 100 Hvol).
    by rewrite (trials_any_draws params _ rn randn). }
  unfold runMonteCarloSimulation in *.
  rewrite calculatePortfolioStats_closed in *. cbn [fst snd] in *.
  rewrite (div_of_zero _ 100 Hvol) in *.
  set (m := ((_ + _) / 100)%js) in *.
  set (years := (retirementAge params - currentAge params)%Z) in *.
  destruct (trials_calm params m randn (Z.to_nat years)
              (Z.to_nat simulations) 0%nat 0%nat
              (replicate (Z.to_nat (years + 1)) []))
    as (filled & Etrials & Hlen & Hrows).
  { rewrite length_replicate. lia. }
  { intros idx bs Hbs. by apply lookup_replicate in Hbs as [-> _]. }
  rewrite Etrials in *.
  eexists. split; [done|]. split; [|exact Hrun].
  apply Forall_lookup. intros i r Hr.
  rewrite list_lookup_imap in Hr.
  destruct (filled !! i) as [bs|] eqn:Ebs; [|done].
  apply (inj Some) in Hr as <-.
  pose proof (Hrows i bs Ebs) as Hbs. cbn [Nat.add] in Hbs.
  set (x := Nat.iter i (calmGrowth params m) (initialPrincipal params)) in *.
  assert (Hall : Forall (eq x) (sort_numbers bs)).
  { apply sort_numbers_Forall. rewrite Hbs. apply Forall_replicate_eq. }
  assert (Hl : length bs = Z.to_nat simulations)
    by (by rewrite Hbs, length_replicate).
  exists (Js.Math_round x).
  unfold bandAt. cbn [monteCarloRow p10 p50 p90].
  destruct (percentile_of_sorted bs simulations 1) as (a & Ha & ->);
    [done | lia | done |].
  destruct (percentile_of_sorted bs simulations 5) as (b & Hb & ->);
    [done | lia | done |].
  destruct (percentile_of_sorted bs simulations 9) as (c & Hc & ->);
    [done | lia | done |].
  rewrite <- (Forall_lookup_1 _ _ _ _ Hall Ha),
          <- (Forall_lookup_1 _ _ _ _ Hall Hb),
          <- (Forall_lookup_1 _ _ _ _ Hall Hc). done.
Qed.

Lemma X26_witness :
  ∃ res,
    fst (runMonteCarloSimulation ∅ busyParams 3
           (fun k => inject_Z (Z.of_nat k)) 2025) = Some res
    ∧ Forall (fun r => ∃ x, bandAt x r) res
    ∧ ∀ randn',
        fst (runMonteCarloSimulation ∅ busyParams 3 randn' 2025) = Some res.
Proof.
  apply (X26_no_volatility_no_band ∅ busyParams 3
           (fun k => inject_Z (Z.of_nat k)) 2025);
    [vm_compute; discriminate | lia | reflexivity].
Defined.

Example calm_band :
  (fun r => (sim_age r, p10 r, p50 r, p90 r))
  <$> default [] (fst (runMonteCarloSimulation ∅ saverParams 3
                         (fun k => inject_Z (Z.of_nat k)) 2025))
  = [ (30%Z, Some 0, Some 0, Some 0);
      (31%Z, Some 12000, Some 12000, Some 12000);
      (32%Z, Some 24000, Some 24000, Some 24000) ].
Proof. vm_compute. reflexivity. Qed.
